(** * Unhinged side-quest research agent: client reconstruction, request
      handler and agent configuration, embedded from the TypeScript sources.

    Layout: the embedding (one module per source file) comes first, the
    theorems about it second. *)

From Stdlib Require Import String Ascii NArith ZArith Bool Lia Arith List.
Import ListNotations.

Set Implicit Arguments.
Set Warnings "-register-all".

(* ================================================================== *)
(** ** JavaScript strings and values *)
(* ================================================================== *)

Module JS.

(** A JavaScript string is a sequence of UTF-16 code units. *)
Definition char := N.
Definition jsstring := list char.

(** Literals of the sources are ASCII, except the bullet U+2022. *)
Definition lit (s : string) : jsstring :=
  List.map N_of_ascii (list_ascii_of_string s).
Arguments lit s%_string.

Definition bullet : char := 8226%N.
Definition LF : char := 10%N.

Fixpoint eqb (a b : jsstring) : bool :=
  match a, b with
  | [], [] => true
  | x :: a', y :: b' => N.eqb x y && eqb a' b'
  | _, _ => false
  end.

(** [s.startsWith(p)] *)
Fixpoint startsWith (p s : jsstring) : bool :=
  match p, s with
  | [], _ => true
  | x :: p', y :: s' => N.eqb x y && startsWith p' s'
  | _ :: _, [] => false
  end.

(** [s.includes(p)] *)
Fixpoint includes (p s : jsstring) : bool :=
  startsWith p s ||
  match s with
  | [] => false
  | _ :: s' => includes p s'
  end.

(** [s.replace(p, "")] with a string pattern: the first occurrence of
    [p] is removed. *)
Fixpoint replaceFirst (p s : jsstring) : jsstring :=
  if startsWith p s then skipn (length p) s
  else match s with
       | [] => []
       | c :: s' => c :: replaceFirst p s'
       end.

(** The class [\s] of regular expressions, which is also the set that
    [trim] strips: WhiteSpace and LineTerminator code units. *)
Definition isSpace (c : char) : bool :=
  ((9 <=? c) && (c <=? 13) || (c =? 32) || (c =? 160) || (c =? 5760)
   || (8192 <=? c) && (c <=? 8202) || (c =? 8232) || (c =? 8233)
   || (c =? 8239) || (c =? 8287) || (c =? 12288) || (c =? 65279))%N.

Fixpoint trimStart (s : jsstring) : jsstring :=
  match s with
  | c :: s' => if isSpace c then trimStart s' else s
  | [] => []
  end.

Definition trimEnd (s : jsstring) : jsstring := rev (trimStart (rev s)).

(** [s.trim()] *)
Definition trim (s : jsstring) : jsstring := trimEnd (trimStart s).

(** [s.split(sep)] where the separator is one code unit out of a class:
    [split("\n")] and [split(/[-:]/)].  The result is never empty. *)
Fixpoint splitOn (sep : char -> bool) (s : jsstring) : list jsstring :=
  match s with
  | [] => [[]]
  | c :: s' =>
      if sep c then [] :: splitOn sep s'
      else match splitOn sep s' with
           | [] => [[c]]
           | w :: ws => (c :: w) :: ws
           end
  end.

(** [xs.join(sep)] *)
Fixpoint join (sep : jsstring) (xs : list jsstring) : jsstring :=
  match xs with
  | [] => []
  | [x] => x
  | x :: xs' => x ++ sep ++ join sep xs'
  end.

(** Values as they come out of the JSON stream.  Numbers are only tested
    for truthiness, so integers stand for them.  An object is its list of
    own properties; every array and object node is a reference of its
    own. *)
Inductive JsVal :=
| JUndefined
| JNull
| JBool (b : bool)
| JNum (n : Z)
| JStr (s : jsstring)
| JArr (items : list JsVal)
| JObj (props : list (jsstring * JsVal)).

(** Abrupt completion: a thrown [TypeError]. *)
Inductive Completion (A : Type) :=
| Normal (a : A)
| Throw (message : jsstring).
Arguments Normal {A} a.
Arguments Throw {A} message.

Definition bind {A B} (m : Completion A) (k : A -> Completion B) : Completion B :=
  match m with
  | Normal a => k a
  | Throw e => Throw e
  end.

(** ToBoolean *)
Definition truthy (v : JsVal) : bool :=
  match v with
  | JUndefined | JNull => false
  | JBool b => b
  | JNum n => negb (Z.eqb n 0)
  | JStr s => match s with [] => false | _ => true end
  | JArr _ | JObj _ => true
  end.

Fixpoint lookup (k : jsstring) (props : list (jsstring * JsVal)) : JsVal :=
  match props with
  | [] => JUndefined
  | (k', v) :: rest => if eqb k k' then v else lookup k rest
  end.

(** [v.k] for the property names the sources read ([url], [title],
    [results]): none of them exists on a string, number, boolean or
    array, and reading any property of [null] or [undefined] throws. *)
Definition getProp (v : JsVal) (k : jsstring) : Completion JsVal :=
  match v with
  | JUndefined | JNull => Throw (lit "TypeError: Cannot read properties")
  | JObj props => Normal (lookup k props)
  | _ => Normal JUndefined
  end.

(** [a || b] *)
Definition or (a b : JsVal) : JsVal := if truthy a then a else b.

(** SameValueZero, the comparison of [Set.prototype.has], on nodes of a
    parsed tree: primitives by value, two distinct array or object
    nodes never the same. *)
Definition sameValueZero (a b : JsVal) : bool :=
  match a, b with
  | JUndefined, JUndefined => true
  | JNull, JNull => true
  | JBool x, JBool y => Bool.eqb x y
  | JNum x, JNum y => Z.eqb x y
  | JStr x, JStr y => eqb x y
  | _, _ => false
  end.

End JS.

Import JS.

(* ================================================================== *)
(** ** src/app/page.tsx *)
(* ================================================================== *)

Module Page.

(** What the page reads of a message part ([part: any]): [type] is
    always a string, [text] is the string of a text part; [state], [url],
    [title] and [output] are whatever the stream delivered ([JUndefined]
    when absent); [args_query] and [args_reason] stand for
    [toolCall?.args?.query] and [toolCall?.args?.reason], which like
    [query] are strings when present. *)
Record Part := mkPart {
  type : jsstring;
  text : jsstring;
  state : JsVal;
  url : JsVal;
  title : JsVal;
  output : JsVal;
  args_query : option jsstring;
  args_reason : option jsstring;
  query : option jsstring
}.

Inductive Role := user | assistant.

Record Message := mkMessage {
  id : jsstring;
  role : Role;
  parts : list Part
}.

Definition textPart (t : jsstring) : Part :=
  mkPart (lit "text") t JUndefined JUndefined JUndefined JUndefined None None None.

Definition toolPart (name : jsstring) (st : jsstring) (out : JsVal) : Part :=
  mkPart (lit "tool-" ++ name) [] (JStr st) JUndefined JUndefined out None None None.

Definition sourceUrlPart (u t : JsVal) : Part :=
  mkPart (lit "source-url") [] JUndefined u t JUndefined None None None.

Record SourceInfo := mkSource {
  source_url : JsVal;
  source_title : JsVal
}.

(** [title || url || "Source"] *)
Definition titleOf (t u : JsVal) : JsVal :=
  JS.or (JS.or t u) (JStr (lit "Source")).

(** The body of [results.forEach((result) => { if (result.url) push })]. *)
Definition pushResult (result : JsVal) (sources : list SourceInfo)
  : Completion (list SourceInfo) :=
  bind (getProp result (lit "url")) (fun u =>
  if truthy u then
    bind (getProp result (lit "title")) (fun t =>
    Normal (sources ++ [mkSource u (titleOf t u)]))
  else Normal sources).

Fixpoint forEachResult (results : list JsVal) (sources : list SourceInfo)
  : Completion (list SourceInfo) :=
  match results with
  | [] => Normal sources
  | r :: rest => bind (pushResult r sources) (forEachResult rest)
  end.

(** The body of [message.parts.forEach((part) => ...)]. *)
Definition collectPart (part : Part) (sources : list SourceInfo)
  : Completion (list SourceInfo) :=
  let sources :=
    if JS.eqb part.(type) (lit "source-url") then
      sources ++ [mkSource (JS.or part.(url) (JStr []))
                           (titleOf part.(title) part.(url))]
    else sources in
  if startsWith (lit "tool-") part.(type) then
    let output := part.(output) in
    if truthy output then
      bind (getProp output (lit "results")) (fun results =>
      match results with
      | JArr rs => forEachResult rs sources
      | _ =>
          match output with
          | JArr rs => forEachResult rs sources
          | _ =>
              bind (getProp output (lit "url")) (fun u =>
              if truthy u then
                bind (getProp output (lit "title")) (fun t =>
                Normal (sources ++ [mkSource u (titleOf t u)]))
              else Normal sources)
          end
      end)
    else Normal sources
  else Normal sources.

Fixpoint collectSources (ps : list Part) (sources : list SourceInfo)
  : Completion (list SourceInfo) :=
  match ps with
  | [] => Normal sources
  | p :: rest => bind (collectPart p sources) (collectSources rest)
  end.

(** [sources.filter((source) => { if (seen.has(source.url)) return false;
    seen.add(source.url); return true; })] with [seen] threaded. *)
Fixpoint dedupe (seen : list JsVal) (sources : list SourceInfo) : list SourceInfo :=
  match sources with
  | [] => []
  | s :: rest =>
      if existsb (sameValueZero s.(source_url)) seen then dedupe seen rest
      else s :: dedupe (s.(source_url) :: seen) rest
  end.

Definition extractSourcesFromMessage (message : Message) : Completion (list SourceInfo) :=
  bind (collectSources message.(parts) []) (fun sources =>
  Normal (dedupe [] sources)).

(** *** getCurrentToolActivity *)

Definition stateIs (p : Part) (s : string) : bool :=
  match p.(state) with
  | JStr st => JS.eqb st (lit s)
  | _ => false
  end.

Definition displayName (toolName : jsstring) : jsstring :=
  if JS.eqb toolName (lit "tavilySearch") then lit "Searching web"
  else if JS.eqb toolName (lit "factCheck") then lit "Fact-checking"
  else if JS.eqb toolName (lit "summarize") then lit "Summarizing"
  else if JS.eqb toolName (lit "findRandomTangents") then lit "Finding tangents"
  else toolName.

Definition isActiveToolPart (part : Part) : bool :=
  startsWith (lit "tool-") part.(type) &&
  (stateIs part "input-available" || stateIs part "input-streaming"
   || stateIs part "output-available").

(** The body of [activeToolParts.forEach]. *)
Definition pushActivity (activities : list jsstring) (part : Part) : list jsstring :=
  let toolName := replaceFirst (lit "tool-") part.(type) in
  let name := displayName toolName in
  if stateIs part "input-available" || stateIs part "input-streaming"
  then activities ++ [name]
  else activities.

Definition getCurrentToolActivity (messages : list Message) : list jsstring :=
  match length messages with
  | O => []
  | S _ =>
      match nth_error messages (length messages - 1) with
      | Some lastMessage =>
          let activeToolParts := filter isActiveToolPart lastMessage.(parts) in
          fold_left pushActivity activeToolParts []
      | None => []
      end
  end.

(** *** The parsing effect of [Chat] *)

Record SearchLogEntry := mkEntry {
  entry_query : jsstring;
  entry_reason : jsstring;
  timestamp : Z
}.

Record ChatState := mkState {
  sideQuestCount : nat;
  searchLog : list SearchLogEntry
}.

(** The state updaters the effect queues, in the order it queues them:
    [setSideQuestCount((prev) => prev + n)], the [setSearchLog] updater
    of the tool-call path and of a "query - reason" line, and the
    [setSearchLog] updater of a line with a query only. *)
Inductive Update :=
| AddSideQuests (n : nat)
| LogSearch (query reason : jsstring)
| LogQueryOnly (query : jsstring).

Definition isEmpty (s : jsstring) : bool :=
  match s with [] => true | _ => false end.

Definition applyUpdate (now : Z) (prev : ChatState) (u : Update) : ChatState :=
  match u with
  | AddSideQuests n =>
      mkState (prev.(sideQuestCount) + n) prev.(searchLog)
  | LogSearch q r =>
      if existsb (fun entry => JS.eqb entry.(entry_query) q
                               && JS.eqb entry.(entry_reason) r) prev.(searchLog)
      then prev
      else mkState prev.(sideQuestCount) (prev.(searchLog) ++ [mkEntry q r now])
  | LogQueryOnly q =>
      if existsb (fun entry => JS.eqb entry.(entry_query) q
                               && isEmpty entry.(entry_reason)) prev.(searchLog)
      then prev
      else mkState prev.(sideQuestCount)
             (prev.(searchLog) ++ [mkEntry q (lit "No reason provided") now])
  end.

Definition isLF (c : char) : bool := (c =? LF)%N.
(** The classes [[:\-]] and [[-:]]. *)
Definition isColonDash (c : char) : bool := ((c =? 58) || (c =? 45))%N.
(** The class [[-•]]. *)
Definition isBullet (c : char) : bool := ((c =? 45) || (c =? bullet))%N.

Section Regex.
(** The lookahead that ends the captured group. *)
Variable stop : jsstring -> bool.

(** [[\s\S]*?(?=stop)]: the shortest run after which the lookahead
    holds. *)
Fixpoint lazyStar (s : jsstring) : option jsstring :=
  if stop s then Some []
  else match s with
       | [] => None
       | c :: s' => option_map (cons c) (lazyStar s')
       end.

(** [([\s\S]+?)(?=stop)] *)
Definition lazyPlus (s : jsstring) : option jsstring :=
  match s with
  | [] => None
  | c :: s' => option_map (cons c) (lazyStar s')
  end.

(** [\s*] followed by the group: greedy, giving back one code unit at
    a time when what follows fails. *)
Fixpoint spacesThen (s : jsstring) : option jsstring :=
  match s with
  | c :: s' =>
      if isSpace c then
        match spacesThen s' with
        | Some g => Some g
        | None => lazyPlus s
        end
      else lazyPlus s
  | [] => lazyPlus []
  end.

(** [[:\-]?] followed by the rest. *)
Definition optThen (s : jsstring) : option jsstring :=
  match s with
  | c :: s' =>
      if isColonDash c then
        match spacesThen s' with
        | Some g => Some g
        | None => spacesThen s
        end
      else spacesThen s
  | [] => spacesThen []
  end.

(** [text.match(/header[:\-]?\s*([\s\S]+?)(?=stop)/)]: group 1 of the
    leftmost match, [None] for [null]. *)
Fixpoint matchSection (header s : jsstring) : option jsstring :=
  let here :=
    if startsWith header s then optThen (skipn (length header) s) else None in
  match here with
  | Some g => Some g
  | None =>
      match s with
      | [] => None
      | _ :: s' => matchSection header s'
      end
  end.
End Regex.

(** [(?=\n\n|\nSearches|$)] *)
Definition sideQuestStop (s : jsstring) : bool :=
  startsWith [LF; LF] s || startsWith (LF :: lit "Searches") s || isEmpty s.

(** [(?=\n\n|$)] *)
Definition searchStop (s : jsstring) : bool :=
  startsWith [LF; LF] s || isEmpty s.

(** [line.replace(/^[-•]\s*/, "")] *)
Definition stripBullet (line : jsstring) : jsstring :=
  match line with
  | c :: rest => if isBullet c then trimStart rest else line
  | [] => []
  end.

Definition isBulletLine (line : jsstring) : bool :=
  startsWith (lit "-") (trim line) || startsWith [bullet] (trim line).

(** [block.split("\n").filter(...).map(...).filter((line) => line.length > 0)] *)
Definition bulletLines (block : jsstring) : list jsstring :=
  filter (fun line => negb (isEmpty line))
    (map (fun line => trim (stripBullet line))
       (filter isBulletLine (splitOn isLF block))).

(** Canonicalize of a case-insensitive regular expression without the
    [u] flag, on ASCII.  A code unit outside ASCII never canonicalizes
    to an ASCII one, and the patterns below are ASCII, so leaving such
    units alone decides the same matches. *)
Definition canonicalize (c : char) : char :=
  if ((97 <=? c) && (c <=? 122))%N then (c - 32)%N else c.

Fixpoint startsWithCI (p s : jsstring) : bool :=
  match p, s with
  | [], _ => true
  | x :: p', y :: s' => N.eqb (canonicalize x) (canonicalize y) && startsWithCI p' s'
  | _ :: _, [] => false
  end.

(** [/got distracted|side quest|tangent/i] at the start of [s]: the
    length of the match. *)
Definition tangentAlt (s : jsstring) : option nat :=
  if startsWithCI (lit "got distracted") s then Some (length (lit "got distracted"))
  else if startsWithCI (lit "side quest") s then Some (length (lit "side quest"))
  else if startsWithCI (lit "tangent") s then Some (length (lit "tangent"))
  else None.

(** [(text.match(/got distracted|side quest|tangent/gi) || []).length]:
    the matches are found left to right and do not overlap; [skip] code
    units of the last match are still to be passed. *)
Fixpoint countMatches (s : jsstring) (skip : nat) : nat :=
  match s with
  | [] => 0
  | _ :: s' =>
      match skip with
      | S k => countMatches s' k
      | O =>
          match tangentAlt s with
          | Some len => S (countMatches s' (len - 1))
          | None => countMatches s' 0
          end
      end
  end.

Definition tangentMentions (text : jsstring) : nat := countMatches text 0.

(** [searchLines.forEach((line) => ...)] *)
Definition lineUpdates (line : jsstring) : list Update :=
  let parts := map trim (splitOn isColonDash line) in
  if 2 <=? length parts then
    [LogSearch (nth 0 parts []) (join (lit " - ") (tl parts))]
  else if (length parts =? 1) && negb (isEmpty (nth 0 parts [])) then
    [LogQueryOnly (nth 0 parts [])]
  else [].

Definition sideQuestSectionUpdates (text : jsstring) : list Update :=
  if includes (lit "Probably irrelevant but interesting") text then
    match matchSection sideQuestStop (lit "Probably irrelevant but interesting") text with
    | Some g => [AddSideQuests (length (bulletLines g))]
    | None => []
    end
  else [].

Definition tangentMentionUpdates (text : jsstring) : list Update :=
  if includes (lit "got distracted") text
     || includes (lit "side quest") text
     || includes (lit "tangent") text
  then [AddSideQuests (Nat.min (tangentMentions text) 2)]
  else [].

Definition searchSectionUpdates (text : jsstring) : list Update :=
  if includes (lit "Searches I ran") text then
    match matchSection searchStop (lit "Searches I ran") text with
    | Some g => flat_map lineUpdates (bulletLines g)
    | None => []
    end
  else [].

(** The branch [if (part.type === "text")]. *)
Definition processText (text : jsstring) : list Update :=
  sideQuestSectionUpdates text ++ tangentMentionUpdates text
  ++ searchSectionUpdates text.

(** [a || b] on strings that may be absent. *)
Definition orStr (a : option jsstring) (b : jsstring) : jsstring :=
  match a with
  | Some (c :: s) => c :: s
  | _ => b
  end.

Section Effect.
(** [String.prototype.toLowerCase], the Unicode case mapping of the
    runtime. *)
Variable toLowerCase : jsstring -> jsstring.

Definition searchQuery (part : Part) : jsstring :=
  orStr part.(args_query) (orStr part.(query) (lit "Unknown query")).

Definition searchReason (part : Part) : jsstring :=
  orStr part.(args_reason) (lit "Research query").

Definition reasonMentions (part : Part) (word : jsstring) : bool :=
  match part.(args_reason) with
  | Some r => includes word (toLowerCase r)
  | None => false
  end.

Definition isTangent (part : Part) : bool :=
  includes (lit "tangent") (toLowerCase (searchQuery part))
  || includes (lit "interesting") (toLowerCase (searchQuery part))
  || includes (lit "side") (toLowerCase (searchQuery part))
  || reasonMentions part (lit "tangent")
  || reasonMentions part (lit "distracted")
  || reasonMentions part (lit "side quest").

(** The body of [message.parts.forEach]: the updates queued and the
    entries pushed on [searchesInThisMessage] (their [isTangent]). *)
Definition processPart (part : Part) : list Update * list bool :=
  let (u1, s1) :=
    if JS.eqb part.(type) (lit "tool-tavilySearch")
    then ([LogSearch (searchQuery part) (searchReason part)], [isTangent part])
    else ([], []) in
  let u2 :=
    if JS.eqb part.(type) (lit "text") then processText part.(text) else [] in
  (u1 ++ u2, s1).

Definition processMessage (message : Message) : list Update :=
  let updates := flat_map (fun p => fst (processPart p)) message.(parts) in
  let searchesInThisMessage := flat_map (fun p => snd (processPart p)) message.(parts) in
  let tangentSearches := length (filter (fun b => b) searchesInThisMessage) in
  updates ++ (if 0 <? tangentSearches then [AddSideQuests tangentSearches] else []).

(** [messages.forEach], with [processedMessageIds] threaded. *)
Fixpoint effectUpdates (processed : list jsstring) (messages : list Message)
  : list Update :=
  match messages with
  | [] => []
  | m :: rest =>
      match m.(role) with
      | assistant =>
          if existsb (JS.eqb m.(id)) processed then effectUpdates processed rest
          else processMessage m ++ effectUpdates (m.(id) :: processed) rest
      | user => effectUpdates processed rest
      end
  end.

(** One run of the effect: React applies the queued updaters in
    order. *)
Definition runEffect (now : Z) (st : ChatState) (messages : list Message) : ChatState :=
  fold_left (applyUpdate now) (effectUpdates [] messages) st.
End Effect.

(** The lower-casing of ASCII, for evaluating the effect on ASCII
    strings. *)
Definition asciiLower (s : jsstring) : jsstring :=
  map (fun c => if ((65 <=? c) && (c <=? 90))%N then (c + 32)%N else c) s.

End Page.

(* ================================================================== *)
(** ** The agents: src/app/agents/*/agent.ts *)
(* ================================================================== *)

Module Agents.

(** The identity of an [AbortSignal] object; a tool context or a
    [generate] call may carry none. *)
Definition AbortSignal := nat.

Inductive AgentName := chatAgent | factCheckerAgent | summarizerAgent | randomTangentsAgent.

Definition AgentName_eqb (a b : AgentName) : bool :=
  match a, b with
  | chatAgent, chatAgent | factCheckerAgent, factCheckerAgent
  | summarizerAgent, summarizerAgent | randomTangentsAgent, randomTangentsAgent => true
  | _, _ => false
  end.

(** What an agent is asked: [generate({ prompt })] or the UI messages
    of the conversation. *)
Inductive Prompt :=
| PromptText (prompt : jsstring)
| PromptMessages (uiMessages : JsVal).

Record ToolCall := mkToolCall {
  toolCallId : jsstring;
  toolName : jsstring;
  input : JsVal
}.

(** The two ways a tool call ends: [output-available], [output-error]. *)
Inductive ToolOutcome :=
| ToolResult (output : JsVal)
| ToolError (errorText : jsstring).

Record StepResult := mkStep {
  step_text : jsstring;
  step_toolCalls : list ToolCall;
  step_toolResults : list ToolOutcome
}.

Record ModelResponse := mkResponse {
  response_text : jsstring;
  response_toolCalls : list ToolCall
}.

Inductive ModelOutcome :=
| ModelOk (r : ModelResponse)
| ModelError (message : jsstring)
| ModelAborted.

(** What a run does that an observer can see, in order. *)
Inductive Event :=
| EvGenerate (agent : AgentName) (prompt : Prompt) (abortSignal : option AbortSignal)
| EvModelCall (agent : AgentName) (abortSignal : option AbortSignal)
| EvSearch (maxResults : nat) (query : jsstring) (abortSignal : option AbortSignal).

Definition eventSignal (e : Event) : option AbortSignal :=
  match e with
  | EvGenerate _ _ s | EvModelCall _ s | EvSearch _ _ s => s
  end.

Definition isModelCallOf (a : AgentName) (e : Event) : bool :=
  match e with
  | EvModelCall b _ => AgentName_eqb a b
  | _ => false
  end.

Definition isGenerate (e : Event) : bool :=
  match e with
  | EvGenerate _ _ _ => true
  | _ => false
  end.

(** The number of model round-trips of agent [a] in a log. *)
Definition roundTrips (a : AgentName) (log : list Event) : nat :=
  length (filter (isModelCallOf a) log).

Record ToolContext := mkContext {
  ctx_abortSignal : option AbortSignal
}.

(** *** Input schemas *)

(** Modelled from the spec: the schema library [zod] is not part of
    src/.  A schema is the parser it denotes; [z.string()] accepts
    strings only, [.optional()] also accepts an absent value, and
    [z.object({...})] accepts an object whose listed properties parse
    (a property that is missing reads as [JUndefined]). *)
Definition Schema (A : Type) := JsVal -> option A.

(** Modelled from the spec: [z.string()] of [zod], "is a string". *)
Definition z_string : Schema jsstring :=
  fun v => match v with JStr s => Some s | _ => None end.

(** Modelled from the spec: [.optional()] of [zod], the value may be
    absent. *)
Definition z_optional {A} (s : Schema A) : Schema (option A) :=
  fun v => match v with
           | JUndefined => Some None
           | _ => option_map Some (s v)
           end.

(** Modelled from the spec: [z.object({ ... })] of [zod]; [shape] parses
    the listed properties, each read with [field]. *)
Definition z_object {A} (shape : list (jsstring * JsVal) -> option A) : Schema A :=
  fun v => match v with JObj props => shape props | _ => None end.

Definition field {A} (k : string) (s : Schema A) (props : list (jsstring * JsVal))
  : option A := s (lookup (lit k) props).

Definition obind {A B} (m : option A) (k : A -> option B) : option B :=
  match m with Some a => k a | None => None end.

(** *** Tools and agents *)

(** [tool({ description, inputSchema, execute })]: [execute] receives
    the parsed input and the context, and returns its outcome together
    with what it did. *)
Record Tool := mkTool {
  description : jsstring;
  Input : Type;
  inputSchema : Schema Input;
  execute : Input -> ToolContext -> ToolOutcome * list Event
}.

(** [stepCountIs(n)] *)
Inductive StopCondition := stepCountIs (n : nat).

(** [new ToolLoopAgent({ model, instructions, tools, stopWhen })] *)
Record ToolLoopAgent := mkAgent {
  name : AgentName;
  model : jsstring;
  instructions : jsstring;
  tools : list (jsstring * Tool);
  stopWhen : StopCondition
}.

Definition stepBudget (a : ToolLoopAgent) : nat :=
  match a.(stopWhen) with stepCountIs n => n end.

Inductive RunOutcome :=
| Completed (text : jsstring) (steps : list StepResult)
| Failed (message : jsstring)
| Cancelled.

Definition lastText (steps : list StepResult) : jsstring :=
  match rev steps with
  | s :: _ => s.(step_text)
  | [] => []
  end.

Fixpoint findTool (n : jsstring) (ts : list (jsstring * Tool)) : option Tool :=
  match ts with
  | [] => None
  | (k, t) :: rest => if JS.eqb n k then Some t else findTool n rest
  end.

(** Modelled from the spec: the tool dispatch of the [ai] package is
    not part of src/.  The input of a call is validated against the
    tool's input schema and rejected before dispatch when malformed;
    a rejected or failed call is an error-state result and the loop
    goes on. *)
Definition executeToolCall (ts : list (jsstring * Tool)) (ctx : ToolContext)
    (call : ToolCall) : ToolOutcome * list Event :=
  match findTool call.(toolName) ts with
  | None => (ToolError (lit "NoSuchToolError"), [])
  | Some t =>
      match t.(inputSchema) call.(input) with
      | None => (ToolError (lit "InvalidToolInputError"), [])
      | Some i => t.(execute) i ctx
      end
  end.

Fixpoint executeTools (ts : list (jsstring * Tool)) (ctx : ToolContext)
    (calls : list ToolCall) : list ToolOutcome * list Event :=
  match calls with
  | [] => ([], [])
  | c :: rest =>
      let (o, l1) := executeToolCall ts ctx c in
      let (os, l2) := executeTools ts ctx rest in
      (o :: os, l1 ++ l2)
  end.

Section Environment.
(** The language model: an opaque completion service. *)
Variable llm : jsstring -> jsstring -> Prompt -> list StepResult ->
               option AbortSignal -> ModelOutcome.
(** The search provider behind [tavilySearch]. *)
Variable search : nat -> jsstring -> option AbortSignal -> ToolOutcome.

(** Modelled from the spec: the loop of [ToolLoopAgent] (package [ai])
    is not part of src/.  The step budget is a counter decremented
    once per round; a round is one model call whose tool calls are
    dispatched one after the other and their results appended to the
    history; the loop ends, normally, when the response has no tool
    call or when the counter reaches zero, and a failing model call
    aborts the run. *)
Fixpoint loop (budget : nat) (a : ToolLoopAgent) (p : Prompt)
    (abortSignal : option AbortSignal) (steps : list StepResult)
  : RunOutcome * list Event :=
  match budget with
  | O => (Completed (lastText steps) steps, [])
  | S budget' =>
      match llm a.(model) a.(instructions) p steps abortSignal with
      | ModelError e => (Failed e, [EvModelCall a.(name) abortSignal])
      | ModelAborted => (Cancelled, [EvModelCall a.(name) abortSignal])
      | ModelOk r =>
          let (results, l1) :=
            executeTools a.(tools) (mkContext abortSignal) r.(response_toolCalls) in
          let steps' :=
            steps ++ [mkStep r.(response_text) r.(response_toolCalls) results] in
          match r.(response_toolCalls) with
          | [] => (Completed (lastText steps') steps',
                   EvModelCall a.(name) abortSignal :: l1)
          | _ :: _ =>
              let (out, l2) := loop budget' a p abortSignal steps' in
              (out, EvModelCall a.(name) abortSignal :: l1 ++ l2)
          end
      end
  end.

(** Modelled from the spec: [agent.generate({ prompt, abortSignal })] of
    the [ai] package, one run of the loop with the agent's step budget. *)
Definition generate (a : ToolLoopAgent) (p : Prompt)
    (abortSignal : option AbortSignal) : RunOutcome * list Event :=
  let (out, l) := loop (stepBudget a) a p abortSignal [] in
  (out, EvGenerate a.(name) p abortSignal :: l).

(** [const result = await agent.generate(...); return result.text;]
    inside a tool: a run that does not complete makes the tool
    fail. *)
Definition returnText (r : RunOutcome * list Event) : ToolOutcome * list Event :=
  match fst r with
  | Completed text _ => (ToolResult (JStr text), snd r)
  | Failed e => (ToolError e, snd r)
  | Cancelled => (ToolError (lit "AbortError"), snd r)
  end.

(** Modelled from the spec: [tavilySearch({ searchDepth: "advanced",
    maxResults })] of [@tavily/ai-sdk] is not part of src/.  The tool
    requires a query string and hands it to the search provider; a
    provider error comes back as an error result. *)
Definition tavilySearch (maxResults : nat) : Tool :=
  mkTool (lit "Search the web with Tavily")
    (z_object (field "query" z_string))
    (fun query ctx =>
       (search maxResults query ctx.(ctx_abortSignal),
        [EvSearch maxResults query ctx.(ctx_abortSignal)])).

(** **** fact-checker/agent.ts *)

(** The prompts are long template strings; their opening sentence
    stands for each of them here. *)
Definition factCheckerInstructions : jsstring :=
  lit "You are a fact-checker agent. Your job is to verify claims and information from research notes.".

Definition factChecker : ToolLoopAgent :=
  mkAgent factCheckerAgent (lit "gpt-5-mini") factCheckerInstructions
    [] (stepCountIs 5).

Record FactCheckInput := mkFactCheckInput { fc_researchNotes : jsstring }.

Definition factCheckTool : Tool :=
  mkTool
    (lit "Fact-check research notes and claims. Verifies information against sources and identifies verified, uncertain, or contradicted claims.")
    (z_object (fun o =>
       obind (field "researchNotes" z_string o) (fun researchNotes =>
       Some (mkFactCheckInput researchNotes))))
    (fun input ctx =>
       returnText
         (generate factChecker
            (PromptText (lit "Please fact-check the following research notes:"
                         ++ [LF; LF] ++ input.(fc_researchNotes)))
            ctx.(ctx_abortSignal))).

(** **** summarizer/agent.ts *)

Definition summarizerInstructions : jsstring :=
  lit "You are a summarizer agent. Your job is to create concise, accurate summaries based on fact-checked information.".

Definition summarizer : ToolLoopAgent :=
  mkAgent summarizerAgent (lit "gpt-5") summarizerInstructions
    [] (stepCountIs 5).

Record SummarizeInput := mkSummarizeInput {
  sm_factCheckedFindings : jsstring;
  sm_originalQuestion : option jsstring
}.

Definition summarizePrompt (input : SummarizeInput) : jsstring :=
  let findings :=
    lit "Fact-checked findings:" ++ [LF] ++ input.(sm_factCheckedFindings)
    ++ [LF; LF] ++ lit "Please create a summary using only verified claims." in
  match input.(sm_originalQuestion) with
  | Some (c :: q) =>
      lit "Original question: " ++ (c :: q) ++ [LF; LF] ++ findings
  | _ => findings
  end.

Definition summarizeTool : Tool :=
  mkTool
    (lit "Summarize fact-checked findings into a concise final answer. Uses only verified claims from the fact-check results.")
    (z_object (fun o =>
       obind (field "factCheckedFindings" z_string o) (fun factCheckedFindings =>
       obind (field "originalQuestion" (z_optional z_string) o) (fun originalQuestion =>
       Some (mkSummarizeInput factCheckedFindings originalQuestion)))))
    (fun input ctx =>
       returnText
         (generate summarizer (PromptText (summarizePrompt input))
            ctx.(ctx_abortSignal))).

(** **** random-tangents/agent.ts *)

Definition randomTangentsInstructions : jsstring :=
  lit "You are a tangent discovery agent. Your job is to find interesting facts that are tangentially related to the main topic but off-subject.".

Definition randomTangents : ToolLoopAgent :=
  mkAgent randomTangentsAgent (lit "gpt-5") randomTangentsInstructions
    [(lit "tavilySearch", tavilySearch 3)] (stepCountIs 5).

Record TangentsInput := mkTangentsInput {
  rt_mainTopic : jsstring;
  rt_researchNotes : jsstring
}.

Definition tangentsPrompt (input : TangentsInput) : jsstring :=
  lit "Main topic: " ++ input.(rt_mainTopic) ++ [LF; LF]
  ++ lit "Research notes:" ++ [LF] ++ input.(rt_researchNotes) ++ [LF; LF]
  ++ lit "Please find interesting tangents - facts that are kind of related but off-subject. Use tavilySearch to discover fascinating side topics and write about them enthusiastically!".

Definition findRandomTangentsTool : Tool :=
  mkTool
    (lit "Find interesting tangents - facts that are kind of related to the main topic but off-subject. Analyzes research notes and performs searches to discover fascinating side topics.")
    (z_object (fun o =>
       obind (field "mainTopic" z_string o) (fun mainTopic =>
       obind (field "researchNotes" z_string o) (fun researchNotes =>
       Some (mkTangentsInput mainTopic researchNotes)))))
    (fun input ctx =>
       returnText
         (generate randomTangents (PromptText (tangentsPrompt input))
            ctx.(ctx_abortSignal))).

(** **** chat/agent.ts *)

Definition systemPrompt : jsstring :=
  lit "You are an unhinged research intern who gets easily distracted. Answer the user's question, but you frequently notice interesting tangents.".

Definition createChatAgent : ToolLoopAgent :=
  mkAgent chatAgent (lit "gpt-5") systemPrompt
    [(lit "tavilySearch", tavilySearch 5);
     (lit "findRandomTangents", findRandomTangentsTool);
     (lit "factCheck", factCheckTool);
     (lit "summarize", summarizeTool)]
    (stepCountIs 15).

End Environment.

End Agents.

(* ================================================================== *)
(** ** src/app/api/chat/route.ts *)
(* ================================================================== *)

Module Route.

(** What the handler returns: the response of
    [createAgentUIStreamResponse], handed on as it is, or the response
    it builds itself, whose body is [JSON.stringify] of [body]. *)
Inductive Response :=
| StreamResponse (agent : Agents.AgentName) (uiMessages : JsVal)
| JsonResponse (status : Z) (headers : list (jsstring * jsstring)) (body : JsVal).

(** The [try] block up to the call that starts the stream:
    [const { messages } = await req.json(); const agent = createChatAgent();]
    where [json] is how [req.json()] completes, the thrown error being
    given by its [message]. *)
Definition tryBlock (json : Completion JsVal) : Completion (Agents.AgentName * JsVal) :=
  bind json (fun parsed =>
  bind (getProp parsed (lit "messages")) (fun messages =>
  Normal (Agents.chatAgent, messages))).

(** [error.message || "Internal server error"] *)
Definition errorMessage (message : jsstring) : jsstring :=
  match message with
  | [] => lit "Internal server error"
  | _ :: _ => message
  end.

Definition POST (json : Completion JsVal) : Response :=
  match tryBlock json with
  | Normal (agent, messages) => StreamResponse agent messages
  | Throw message =>
      JsonResponse 500
        [(lit "Content-Type", lit "application/json")]
        (JObj [(lit "error", JStr (errorMessage message))])
  end.

Definition status_of (r : Response) : option Z :=
  match r with
  | JsonResponse st _ _ => Some st
  | StreamResponse _ _ => None
  end.

(** The [error] property of the payload of a response built by the
    handler. *)
Definition error_of (r : Response) : option jsstring :=
  match r with
  | JsonResponse _ _ (JObj props) =>
      match lookup (lit "error") props with
      | JStr s => Some s
      | _ => None
      end
  | _ => None
  end.

Definition isSuccess (st : Z) : bool := ((200 <=? st) && (st <=? 299))%Z.

End Route.

(* ================================================================== *)
(** ** The streamed tool-call lifecycle *)
(* ================================================================== *)

Module Stream.

(** Modelled from the spec: the streaming transport and the message
    reconstruction of the client ([createAgentUIStreamResponse] and
    [useChat], packages [ai] and [@ai-sdk/react]) are not part of src/.
    A tool-call part has one of four states; the transport emits, per
    tool call, [tool-call-start], [tool-call-args] and
    [tool-call-result] or [tool-call-error], strictly ordered and each
    stage at most once; the client replays the events in arrival
    order. *)
Inductive ToolState :=
| input_streaming
| input_available
| output_available
| output_error.

Inductive ToolEvent :=
| tool_call_start (toolName : jsstring)
| tool_call_args (input : JsVal)
| tool_call_result (output : JsVal)
| tool_call_error (errorText : jsstring).

Inductive StreamEvent :=
| text_delta (delta : jsstring)
| tool_event (toolCallId : nat) (e : ToolEvent).

(** The position of a state on the path
    input-streaming -> input-available -> (output-available | output-error). *)
Definition rank (s : ToolState) : nat :=
  match s with
  | input_streaming => 0
  | input_available => 1
  | output_available | output_error => 2
  end.

Definition isTerminal (s : ToolState) : bool :=
  match s with
  | output_available | output_error => true
  | _ => false
  end.

(** The stage of the lifecycle an event belongs to, and the state the
    part is in once the event has arrived. *)
Definition stage (e : ToolEvent) : nat :=
  match e with
  | tool_call_start _ => 0
  | tool_call_args _ => 1
  | tool_call_result _ | tool_call_error _ => 2
  end.

Definition stateAfter (e : ToolEvent) : ToolState :=
  match e with
  | tool_call_start _ => input_streaming
  | tool_call_args _ => input_available
  | tool_call_result _ => output_available
  | tool_call_error _ => output_error
  end.

(** Modelled from the spec: the transport remembers, per tool call, the
    last stage it emitted, and emits an event only of a later stage. *)
Definition Transport := list (nat * nat).

Fixpoint lastStage (id : nat) (t : Transport) : option nat :=
  match t with
  | [] => None
  | (i, st) :: rest => if Nat.eqb id i then Some st else lastStage id rest
  end.

(** Modelled from the spec: one emission; [None] when the transport
    would have to go back to an earlier stage or repeat one. *)
Definition emit (t : Transport) (ev : StreamEvent) : option Transport :=
  match ev with
  | text_delta _ => Some t
  | tool_event id e =>
      match lastStage id t with
      | None => Some ((id, stage e) :: t)
      | Some st => if st <? stage e then Some ((id, stage e) :: t) else None
      end
  end.

Fixpoint emitAll (t : Transport) (evs : list StreamEvent) : option Transport :=
  match evs with
  | [] => Some t
  | ev :: rest =>
      match emit t ev with
      | Some t' => emitAll t' rest
      | None => None
      end
  end.

(** Modelled from the spec: the parts of the message being rebuilt, in
    emission order.  A text delta is appended to the current text part;
    a tool event sets the state of the part of its tool call, which the
    first event of the call creates. *)
Inductive Part :=
| text_part (text : jsstring)
| tool_call_part (toolCallId : nat) (st : ToolState).

Fixpoint setState (id : nat) (s : ToolState) (ps : list Part) : option (list Part) :=
  match ps with
  | [] => None
  | tool_call_part i st :: rest =>
      if Nat.eqb id i then Some (tool_call_part i s :: rest)
      else option_map (cons (tool_call_part i st)) (setState id s rest)
  | p :: rest => option_map (cons p) (setState id s rest)
  end.

Definition appendText (delta : jsstring) (ps : list Part) : list Part :=
  match rev ps with
  | text_part t :: before => rev before ++ [text_part (t ++ delta)]
  | _ => ps ++ [text_part delta]
  end.

(** Modelled from the spec: the client's reduction of one event. *)
Definition apply (ps : list Part) (ev : StreamEvent) : list Part :=
  match ev with
  | text_delta d => appendText d ps
  | tool_event id e =>
      match setState id (stateAfter e) ps with
      | Some ps' => ps'
      | None => ps ++ [tool_call_part id (stateAfter e)]
      end
  end.

Definition replay (evs : list StreamEvent) : list Part := fold_left apply evs [].

Fixpoint partState (id : nat) (ps : list Part) : option ToolState :=
  match ps with
  | [] => None
  | tool_call_part i st :: rest => if Nat.eqb id i then Some st else partState id rest
  | _ :: rest => partState id rest
  end.

(** Transport and client in step: what the transport remembers of a
    tool call is the rank of the state of its part. *)
Definition inStep (t : Transport) (ps : list Part) : Prop :=
  forall c, option_map rank (partState c ps) = lastStage c t.

End Stream.

(* ================================================================== *)
(** ** Vocabulary of the specification *)
(* ================================================================== *)

Module Spec.
Import Page.

(** The most recent message. *)
Definition lastMessage (messages : list Message) : option Message :=
  match rev messages with
  | m :: _ => Some m
  | [] => None
  end.

(** A tool part that is in flight: its input is streaming or
    available. *)
Definition inFlight (p : Part) : bool :=
  startsWith (lit "tool-") p.(type)
  && (stateIs p "input-streaming" || stateIs p "input-available").

(** The tool name of a tool part: its type without the [tool-] prefix. *)
Definition toolNameOf (p : Part) : jsstring := skipn 5 p.(type).

(** The current-activity labels as the specification words them. *)
Definition currentActivity (messages : list Message) : list jsstring :=
  match lastMessage messages with
  | None => []
  | Some m => map (fun p => displayName (toolNameOf p)) (filter inFlight m.(parts))
  end.

Definition recognized (toolName : jsstring) : bool :=
  JS.eqb toolName (lit "tavilySearch") || JS.eqb toolName (lit "factCheck")
  || JS.eqb toolName (lit "summarize") || JS.eqb toolName (lit "findRandomTangents").

(** The citations of a URL in a list of sources, in order. *)
Definition entriesFor (u : jsstring) (sources : list SourceInfo) : list SourceInfo :=
  filter (fun s => sameValueZero s.(source_url) (JStr u)) sources.

(** The first citation of a URL. *)
Definition firstCitation (u : jsstring) (sources : list SourceInfo) : option SourceInfo :=
  find (fun s => sameValueZero s.(source_url) (JStr u)) sources.

(** The (query, reason) pairs of a search log. *)
Definition logKeys (log : list SearchLogEntry) : list (jsstring * jsstring) :=
  map (fun e => (e.(entry_query), e.(entry_reason))) log.

(** The markers the specification names for the text heuristics: the
    section headers and the distraction phrasing, in any letter case
    for the latter. *)
Definition namesSpecMarker (text : jsstring) : bool :=
  includes (lit "Searches I ran") text
  || includes (lit "Random Tangents") text
  || (0 <? tangentMentions text).

(** The strings the page does look for. *)
Definition namesCodeMarker (text : jsstring) : bool :=
  includes (lit "Searches I ran") text
  || includes (lit "Probably irrelevant but interesting") text
  || (0 <? tangentMentions text).

Definition isLogUpdate (u : Update) : bool :=
  match u with
  | AddSideQuests _ => false
  | _ => true
  end.

(** What a list of updates adds to the side-quest counter. *)
Definition sideQuestIncrement (us : list Update) : nat :=
  fold_right (fun u acc => match u with AddSideQuests n => n + acc | _ => acc end) 0 us.

(** A property an object lacks reads as [undefined]. *)
Definition lacks (k : string) (v : JsVal) : Prop :=
  match v with
  | JObj props => lookup (lit k) props = JUndefined
  | _ => True
  end.

Definition hasString (k : string) (v : JsVal) : Prop :=
  exists props s, v = JObj props /\ lookup (lit k) props = JStr s.

Definition hasStringOrNothing (k : string) (v : JsVal) : Prop :=
  exists props, v = JObj props /\
    (lookup (lit k) props = JUndefined \/ exists s, lookup (lit k) props = JStr s).

(** The array whose elements [extractSourcesFromMessage] visits in a
    tool output. *)
Definition visitedResults (output : JsVal) : list JsVal :=
  match output with
  | JObj props =>
      match lookup (lit "results") props with
      | JArr rs => rs
      | _ => []
      end
  | JArr rs => rs
  | _ => []
  end.

Definition notNullish (v : JsVal) : bool :=
  match v with
  | JUndefined | JNull => false
  | _ => true
  end.

(** *** Agents *)

Import Agents.

(** A run that ends normally. *)
Definition normal (o : RunOutcome) : Prop :=
  exists text steps, o = Completed text steps.

Section Runs.
Variable llm : jsstring -> jsstring -> Prompt -> list StepResult ->
               option AbortSignal -> ModelOutcome.

(** The model answers every call of the run. *)
Definition modelAnswers (a : ToolLoopAgent) (p : Prompt)
    (sig : option AbortSignal) : Prop :=
  forall steps, exists r,
    llm a.(model) a.(instructions) p steps sig = ModelOk r.

(** The model never stops by itself: every answer asks for a tool. *)
Definition modelKeepsCalling (a : ToolLoopAgent) (p : Prompt)
    (sig : option AbortSignal) : Prop :=
  forall steps, exists r,
    llm a.(model) a.(instructions) p steps sig = ModelOk r
    /\ r.(response_toolCalls) <> [].
End Runs.

(** The schema of a tool accepts a value. *)
Definition accepts (t : Tool) (v : JsVal) : Prop := t.(inputSchema) v <> None.

(** The required properties of the three sub-agent tools. *)
Definition requiredFields : list (jsstring * string) :=
  [(lit "factCheck", "researchNotes"%string);
   (lit "findRandomTangents", "mainTopic"%string);
   (lit "findRandomTangents", "researchNotes"%string);
   (lit "summarize", "factCheckedFindings"%string)].

(** What a tool execution does starts with the one [generate] call of
    the wrapped agent, made with the signal of the tool's context, and
    everything in it carries that signal. *)
Definition spawnsWithSignal (a : AgentName) (ctx : ToolContext)
    (log : list Event) : Prop :=
  (exists prompt rest,
      log = EvGenerate a prompt ctx.(ctx_abortSignal) :: rest
      /\ Forall (fun e => isGenerate e = false) rest)
  /\ Forall (fun e => eventSignal e = ctx.(ctx_abortSignal)) log.

(** The four agents of the repository. *)
Definition theAgents
    (llm : jsstring -> jsstring -> Prompt -> list StepResult ->
           option AbortSignal -> ModelOutcome)
    (search : nat -> jsstring -> option AbortSignal -> ToolOutcome)
  : list ToolLoopAgent :=
  [createChatAgent llm search; factChecker; summarizer; randomTangents search].

End Spec.

(* ================================================================== *)
(** ** Concrete inputs *)
(* ================================================================== *)

Module Inputs.
Import Page.

Definition line (a b : jsstring) : jsstring := a ++ [LF] ++ b.

(** The scenario of the specification: two tool outputs cite one URL
    under two titles. *)
Definition twoOutputs : Message :=
  mkMessage (lit "m1") assistant
    [toolPart (lit "tavilySearch") (lit "output-available")
       (JObj [(lit "results",
               JArr [JObj [(lit "url", JStr (lit "https://a.example"));
                           (lit "title", JStr (lit "First"))]])]);
     toolPart (lit "tavilySearch") (lit "output-available")
       (JObj [(lit "results",
               JArr [JObj [(lit "url", JStr (lit "https://a.example"));
                           (lit "title", JStr (lit "Second"))];
                     JObj [(lit "url", JStr (lit "https://b.example"))]])])].

(** A final answer whose tangent section has the header the system
    prompt prescribes. *)
Definition randomTangentsHeader : jsstring := lit "# Random Tangents".

(** A text with the section header the page counts side quests under. *)
Definition irrelevantSection : jsstring :=
  line (lit "Probably irrelevant but interesting:") (lit "- cats").

(** A search section whose one bullet gives a query and no reason. *)
Definition searchesSection : jsstring :=
  line (lit "Searches I ran:") (lit "- capital of Lebanon").

Definition searchesMessage : Message :=
  mkMessage (lit "m1") assistant [textPart searchesSection].

(** The message of the parser for a body that is not JSON. *)
Definition parserMessage : jsstring :=
  lit "Unexpected token } in JSON at position 12".

(** A model that asks for one more web search at every step, and a
    search provider that finds nothing. *)
Definition searchAgain : jsstring -> jsstring -> Agents.Prompt ->
    list Agents.StepResult -> option Agents.AbortSignal -> Agents.ModelOutcome :=
  fun _ _ _ _ _ =>
    Agents.ModelOk
      (Agents.mkResponse (lit "Wait, I got distracted")
         [Agents.mkToolCall (lit "call") (lit "tavilySearch")
            (JObj [(lit "query", JStr (lit "capital of Lebanon"))])]).

Definition noResults : nat -> jsstring -> option Agents.AbortSignal -> Agents.ToolOutcome :=
  fun _ _ _ => Agents.ToolResult (JObj [(lit "results", JArr [])]).

Definition question : Agents.Prompt :=
  Agents.PromptText (lit "What's the capital of Lebanon?").

(** A [factCheck] call whose input has no [researchNotes]. *)
Definition callWithoutNotes : Agents.ToolCall :=
  Agents.mkToolCall (lit "call-1") (lit "factCheck")
    (JObj [(lit "notes", JStr (lit "Beirut is the capital"))]).

(** The events of one search call, around a text delta. *)
Definition searchCallEvents : list Stream.StreamEvent :=
  [Stream.tool_event 1 (Stream.tool_call_start (lit "tavilySearch"));
   Stream.text_delta (lit "Searching");
   Stream.tool_event 1
     (Stream.tool_call_args (JObj [(lit "query", JStr (lit "capital of Lebanon"))]))].

End Inputs.

(* ================================================================== *)
(** ** src/app/page.tsx: the loader, the most recent tool part, the
       sources of a rendered message *)
(* ================================================================== *)

Module Loader.
Import Page.

(** [status] of [useChat]. *)
Inductive Status := submitted | streaming | ready | error.

(** [status === "submitted" || status === "streaming"] *)
Definition isLoading (status : Status) : bool :=
  match status with
  | submitted | streaming => true
  | ready | error => false
  end.

Record LoaderContent := mkLoader {
  loader_title : jsstring;
  loader_activities : list jsstring;
  loader_toolParts : list Part
}.

(** [p.type.startsWith("tool-")] *)
Definition isToolPart (p : Part) : bool := startsWith (lit "tool-") p.(type).

(** The body of [useMemo] for [loaderContent]; [None] is [null]. *)
Definition loaderContent (status : Status) (messages : list Message)
  : option LoaderContent :=
  if negb (isLoading status) then None
  else
    let activities := getCurrentToolActivity messages in
    let hasActivities := 0 <? length activities in
    let recentToolParts :=
      if 0 <? length messages then
        match nth_error messages (length messages - 1) with
        | Some m => filter isToolPart m.(parts)
        | None => []
        end
      else [] in
    Some (mkLoader
            (if hasActivities then join (lit ", ") activities
             else lit "Researching...")
            (if hasActivities then activities else [lit "Starting research..."])
            recentToolParts).

(** The name of a tool in the task list of the loader. *)
Definition itemName (toolName : jsstring) : jsstring :=
  if JS.eqb toolName (lit "tavilySearch") then lit "Web search"
  else if JS.eqb toolName (lit "factCheck") then lit "Fact-checking"
  else if JS.eqb toolName (lit "summarize") then lit "Summarizing"
  else if JS.eqb toolName (lit "findRandomTangents") then lit "Finding tangents"
  else toolName.

Definition stateLabel (part : Part) : jsstring :=
  if stateIs part "input-available" || stateIs part "input-streaming"
  then lit "Running"
  else if stateIs part "output-available" then lit "Completed"
  else if stateIs part "output-error" then lit "Error"
  else [].

(** The text of a [TaskItem] of [loaderContent.toolParts.map]:
    [{displayName}{stateLabel && ` - ${stateLabel}`}]. *)
Definition taskItem (part : Part) : jsstring :=
  itemName (replaceFirst (lit "tool-") part.(type))
  ++ (if isEmpty (stateLabel part) then [] else lit " - " ++ stateLabel part).

(** The inner loop of [mostRecentToolPart]: [rparts] are the parts from
    index [j] down to 0. *)
Fixpoint lastToolFrom (rparts : list Part) (j : nat) : option nat :=
  match rparts with
  | [] => None
  | part :: rest =>
      if isToolPart part then Some j else lastToolFrom rest (j - 1)
  end.

Definition lastToolIndex (ps : list Part) : option nat :=
  lastToolFrom (rev ps) (length ps - 1).

(** The outer loop, over the messages from the last one down. *)
Fixpoint scanMessages (rmessages : list Message) : option (jsstring * nat) :=
  match rmessages with
  | [] => None
  | message :: rest =>
      match lastToolIndex message.(parts) with
      | Some j => Some (message.(id), j)
      | None => scanMessages rest
      end
  end.

(** The body of [useMemo] for [mostRecentToolPart]:
    [{ messageId, partIndex }] or [null]. *)
Definition mostRecentToolPart (messages : list Message) : option (jsstring * nat) :=
  scanMessages (rev messages).

(** The [Sources] elements of a rendered message, in order: one inside
    the [Message] of every text part and, without a text part, one in a
    [Message] of its own; each lists the sources it is given. *)
Definition renderedSources (message : Message) : Completion (list (list SourceInfo)) :=
  bind (extractSourcesFromMessage message) (fun sources =>
  let hasTextParts := existsb (fun p => JS.eqb p.(type) (lit "text")) message.(parts) in
  let show :=
    match message.(role) with
    | assistant => 0 <? length sources
    | user => false
    end in
  Normal
    (flat_map (fun part =>
                 if JS.eqb part.(type) (lit "text") && show then [sources] else [])
       message.(parts)
     ++ (if show && negb hasTextParts then [sources] else []))).

End Loader.

(* ================================================================== *)
(** ** The prompt input (the component [InputDemo]) and [handleSubmit] *)
(* ================================================================== *)

Module PromptInput.
Import Page.

(** What the handlers do: [sendMessage({ text })], [setInput(value)] of
    [Chat], [setText(value)] of [InputDemo]. *)
Inductive Action :=
| SendMessage (text : jsstring)
| SetInput (value : jsstring)
| SetText (value : jsstring).

Definition suggestions : list jsstring :=
  [lit "What are the latest developments in quantum computing?";
   lit "What's the capital of Lebanon?";
   lit "How do octopuses change color?";
   lit "What is the smallest country in the world?";
   lit "Explain how black holes form"].

(** [handleSubmit] of [Chat]; [message.text] is a string or undefined. *)
Definition Chat_handleSubmit (text : option jsstring) : list Action :=
  match text with
  | Some (c :: s) => [SendMessage (c :: s); SetInput []]
  | _ => []
  end.

Section InputDemo.
(** The property [onSubmit] of the component. *)
Variable onSubmit : option jsstring -> list Action.

(** [handleSubmit] of [InputDemo] *)
Definition handleSubmit (text : option jsstring) : list Action :=
  let hasText := match text with Some (_ :: _) => true | _ => false end in
  if negb hasText then []
  else onSubmit (Some (orStr text [])) ++ [SetText []].

Definition handleSuggestionClick (suggestion : jsstring) : list Action :=
  SetText suggestion :: onSubmit (Some suggestion).
End InputDemo.

Definition sent (acts : list Action) : list jsstring :=
  flat_map (fun a => match a with SendMessage t => [t] | _ => [] end) acts.

End PromptInput.

(* ================================================================== *)
(** ** Vocabulary of the further properties *)
(* ================================================================== *)

Module Props.
Import Page Agents.

(** The results [extractSourcesFromMessage] visits in a part: those of
    the output of a tool part. *)
Definition visits (p : Part) : list JsVal :=
  if startsWith (lit "tool-") p.(type) then Spec.visitedResults p.(output) else [].

Definition isAssistant (m : Message) : bool :=
  match m.(role) with assistant => true | user => false end.

Definition isQueryOnly (u : Update) : bool :=
  match u with LogQueryOnly _ => true | _ => false end.

(** The text parts of the assistant messages. *)
Definition assistantTexts (messages : list Message) : list jsstring :=
  flat_map (fun m =>
              if isAssistant m then
                flat_map (fun p => if JS.eqb p.(type) (lit "text") then [p.(text)] else [])
                  m.(parts)
              else [])
    messages.

Definition isRunning (p : Part) : bool :=
  stateIs p "input-available" || stateIs p "input-streaming".

Definition hasToolPart (m : Message) : bool := existsb Loader.isToolPart m.(parts).

Definition isSearchWith (ns : list nat) (e : Event) : bool :=
  match e with
  | EvSearch n _ _ => existsb (Nat.eqb n) ns
  | _ => true
  end.

Definition isSearch (e : Event) : bool :=
  match e with EvSearch _ _ _ => true | _ => false end.


(** A source that can be shown: its title is truthy, and its URL is
    truthy or the empty string. *)
Definition showable (s : SourceInfo) : Prop :=
  truthy (source_title s) = true
  /\ (truthy (source_url s) = true \/ source_url s = JStr []).

(** The ids the effect has processed after a list of messages. *)
Fixpoint processedAfter (processed : list jsstring) (messages : list Message)
  : list jsstring :=
  match messages with
  | [] => processed
  | m :: rest =>
      if isAssistant m && negb (existsb (JS.eqb m.(id)) processed)
      then processedAfter (m.(id) :: processed) rest
      else processedAfter processed rest
  end.

(** A message with a tavilySearch part whose arguments give a query and
    a reason, and a text part whose search section gives the same pair. *)
Definition searchWithReason : Message :=
  mkMessage (lit "m2") assistant
    [mkPart (lit "tool-tavilySearch") [] (JStr (lit "output-available"))
       JUndefined JUndefined JUndefined
       (Some (lit "capital of Lebanon")) (Some (lit "main question")) None;
     textPart (Inputs.line (lit "Searches I ran:")
                 (lit "- capital of Lebanon: main question"))].

(** A string that does not begin with white space. *)
Definition headNotSpace (s : jsstring) : Prop :=
  match s with
  | [] => True
  | c :: _ => isSpace c = false
  end.

(** No code unit of the string is a colon or a dash. *)
Definition noColonDash (s : jsstring) : bool :=
  forallb (fun c => negb (isColonDash c)) s.

Definition noColon (s : jsstring) : bool :=
  forallb (fun c => negb (c =? 58)%N) s.

(** The query and the reason an update logs. *)
Definition loggedQuery (u : Update) : option jsstring :=
  match u with
  | LogSearch q _ | LogQueryOnly q => Some q
  | AddSideQuests _ => None
  end.

Definition loggedReason (u : Update) : option jsstring :=
  match u with
  | LogSearch _ r => Some r
  | _ => None
  end.

(** The parts of the most recent message. *)
Definition lastParts (messages : list Message) : list Part :=
  match rev messages with
  | m :: _ => m.(parts)
  | [] => []
  end.

Definition isTextPart (p : Part) : bool := JS.eqb p.(type) (lit "text").

(** A conversation whose last message has a search under way and a
    fact-check done. *)
Definition searching : list Message :=
  [mkMessage (lit "u1") user [textPart (lit "What's the capital of Lebanon?")];
   mkMessage (lit "a1") assistant
     [toolPart (lit "factCheck") (lit "output-available") (JStr (lit "ok"));
      toolPart (lit "tavilySearch") (lit "input-available") JUndefined;
      textPart (lit "Wait, I got distracted")]].

(** The agent an event belongs to; a search belongs to none. *)
Definition eventAgent (e : Event) : option AgentName :=
  match e with
  | EvGenerate a _ _ | EvModelCall a _ => Some a
  | EvSearch _ _ _ => None
  end.



End Props.

(* ================================================================== *)
(** * Theorems *)
(* ================================================================== *)

Import Page Spec Inputs Route Agents Stream Props.

Unset Implicit Arguments.

(** ** Strings *)

Lemma eqb_refl : forall a, JS.eqb a a = true.
Proof.
  induction a as [|x a IH]; simpl; [reflexivity|].
  now rewrite N.eqb_refl, IH.
Qed.

Lemma eqb_true_iff : forall a b, JS.eqb a b = true <-> a = b.
Proof.
  induction a as [|x a IH]; intros [|y b]; simpl; split; intros H;
    try reflexivity; try discriminate.
  - apply andb_true_iff in H as [Hx Hr].
    apply N.eqb_eq in Hx. apply IH in Hr. now subst.
  - inversion H; subst. now rewrite N.eqb_refl, eqb_refl.
Qed.

Lemma startsWith_split : forall p s,
  startsWith p s = true -> s = p ++ skipn (length p) s.
Proof.
  induction p as [|x p IH]; intros [|y s] H; simpl in *; try reflexivity;
    try discriminate.
  apply andb_true_iff in H as [Hx Hr].
  apply N.eqb_eq in Hx. subst. f_equal. now apply IH.
Qed.

Lemma replaceFirst_prefix : forall p s,
  startsWith p s = true -> replaceFirst p s = skipn (length p) s.
Proof.
  intros p [|c s] H; simpl; now rewrite H.
Qed.

(** ** getCurrentToolActivity *)

Lemma nth_error_last : forall (A : Type) (l : list A),
  nth_error l (length l - 1) = match rev l with x :: _ => Some x | [] => None end.
Proof.
  intros A l. rewrite <- (rev_involutive l) at 1 2.
  destruct (rev l) as [|x r]; [reflexivity|].
  simpl rev. rewrite length_app. simpl length.
  rewrite nth_error_app2 by lia.
  replace (length (rev r) + 1 - 1 - length (rev r)) with 0 by lia.
  reflexivity.
Qed.

Lemma pushActivity_fold : forall ps acc,
  fold_left pushActivity (filter isActiveToolPart ps) acc
  = acc ++ map (fun p => displayName (toolNameOf p)) (filter inFlight ps).
Proof.
  induction ps as [|p ps IH]; intros acc; simpl.
  - now rewrite app_nil_r.
  - unfold isActiveToolPart, inFlight.
    destruct (startsWith (lit "tool-") (type p)) eqn:Hpre; simpl; [|apply IH].
    destruct (stateIs p "input-available") eqn:Ha;
      destruct (stateIs p "input-streaming") eqn:Hs;
      destruct (stateIs p "output-available") eqn:Ho; simpl;
      try apply IH;
      rewrite IH; unfold pushActivity; rewrite ?Ha, ?Hs; simpl;
      try (rewrite (replaceFirst_prefix _ _ Hpre); unfold toolNameOf; simpl length;
           rewrite <- app_assoc; reflexivity);
      reflexivity.
Qed.

(** C8.  The activity labels are those of the in-flight tool parts of the
    most recent message, one label per such part in part order, with the
    four known tool names mapped to their labels and any other name passed
    through; no message gives no label. *)
Theorem C8_current_activity :
  (forall messages, getCurrentToolActivity messages = currentActivity messages)
  /\ getCurrentToolActivity [] = []
  /\ displayName (lit "tavilySearch") = lit "Searching web"
  /\ displayName (lit "factCheck") = lit "Fact-checking"
  /\ displayName (lit "summarize") = lit "Summarizing"
  /\ displayName (lit "findRandomTangents") = lit "Finding tangents"
  /\ (forall n, recognized n = false -> displayName n = n).
Proof.
  repeat split; try reflexivity.
  - intros messages. unfold getCurrentToolActivity, currentActivity, lastMessage.
    rewrite nth_error_last.
    destruct messages as [|m ms]; [reflexivity|].
    cbn [length].
    destruct (rev (m :: ms)) as [|x r] eqn:Hr.
    + apply (f_equal (@length _)) in Hr. rewrite length_rev in Hr. discriminate.
    + now rewrite pushActivity_fold.
  - intros n H. unfold recognized in H. unfold displayName.
    repeat (apply orb_false_iff in H; destruct H as [H ?]).
    now rewrite H, H0, H1, H2.
Qed.

(** ** extractSourcesFromMessage *)

Lemma sameValueZero_str : forall v u,
  sameValueZero v (JStr u) = true <-> v = JStr u.
Proof.
  intros v u; destruct v; simpl; split; intros H; try discriminate.
  - apply eqb_true_iff in H. now subst.
  - inversion H; subst. apply eqb_refl.
Qed.

Lemma sameValueZero_str_l : forall v u,
  sameValueZero (JStr u) v = true <-> v = JStr u.
Proof.
  intros v u; destruct v; simpl; split; intros H; try discriminate.
  - apply eqb_true_iff in H. now subst.
  - inversion H; subst. apply eqb_refl.
Qed.

(** A URL that is already in [seen] is filtered out everywhere. *)
Lemma dedupe_seen : forall sources seen u,
  existsb (sameValueZero (JStr u)) seen = true ->
  entriesFor u (dedupe seen sources) = [].
Proof.
  induction sources as [|s rest IH]; intros seen u Hseen; simpl; [reflexivity|].
  destruct (existsb (sameValueZero (source_url s)) seen) eqn:Hs.
  - now apply IH.
  - unfold entriesFor in *. simpl.
    destruct (sameValueZero (source_url s) (JStr u)) eqn:Hu.
    + apply sameValueZero_str in Hu. rewrite Hu in Hs. congruence.
    + apply IH. simpl. now rewrite Hseen, orb_true_r.
Qed.

(** A URL that is not in [seen] keeps its first citation and nothing
    else. *)
Lemma dedupe_first : forall sources seen u,
  existsb (sameValueZero (JStr u)) seen = false ->
  entriesFor u (dedupe seen sources)
  = match firstCitation u sources with Some s => [s] | None => [] end.
Proof.
  induction sources as [|s rest IH]; intros seen u Hseen; simpl; [reflexivity|].
  unfold firstCitation in *. simpl.
  destruct (sameValueZero (source_url s) (JStr u)) eqn:Hu.
  - apply sameValueZero_str in Hu. destruct s as [su st]. simpl in Hu. subst su.
    simpl. rewrite Hseen. unfold entriesFor. simpl. rewrite eqb_refl.
    f_equal. apply dedupe_seen. simpl. now rewrite eqb_refl.
  - destruct (existsb (sameValueZero (source_url s)) seen) eqn:Hs.
    + now apply IH.
    + unfold entriesFor in *. simpl. rewrite Hu. apply IH.
      cbn [existsb]. rewrite Hseen, orb_false_r.
      destruct (sameValueZero (JStr u) (source_url s)) eqn:Hu'; [|reflexivity].
      apply sameValueZero_str_l in Hu'. rewrite Hu' in Hu.
      simpl in Hu. now rewrite eqb_refl in Hu.
Qed.

Lemma firstCitation_cited : forall sources u,
  In (JStr u) (map source_url sources) ->
  exists t, firstCitation u sources = Some (mkSource (JStr u) t).
Proof.
  induction sources as [|s rest IH]; intros u Hin; simpl in Hin; [contradiction|].
  unfold firstCitation in *. simpl.
  destruct (sameValueZero (source_url s) (JStr u)) eqn:Hu.
  - apply sameValueZero_str in Hu. destruct s as [su st]. simpl in Hu. subst.
    now exists st.
  - destruct Hin as [Hin|Hin]; [|now apply IH].
    rewrite Hin in Hu. simpl in Hu. now rewrite eqb_refl in Hu.
Qed.

Lemma dedupe_incl : forall sources seen s,
  In s (dedupe seen sources) -> In s sources.
Proof.
  induction sources as [|x rest IH]; intros seen s H; simpl in *; [assumption|].
  destruct (existsb (sameValueZero (source_url x)) seen).
  - right. eapply IH; eauto.
  - destruct H as [H|H]; [now left|right; eapply IH; eauto].
Qed.

(** C3.  Whenever [extractSourcesFromMessage] returns, for every URL the
    parts of the message cite (in a source-url part or in a tool output),
    however often and under whatever titles, the returned list holds
    exactly one entry for that URL and it is the first citation in part
    order, so it carries the first-seen title; and the list holds nothing
    that was not cited. *)
Theorem C3_sources_deduplicated : forall message out,
  extractSourcesFromMessage message = Normal out ->
  exists cited,
    collectSources message.(parts) [] = Normal cited
    /\ (forall s, In s out -> In s cited)
    /\ forall u, In (JStr u) (map source_url cited) ->
         exists t, firstCitation u cited = Some (mkSource (JStr u) t)
                   /\ entriesFor u out = [mkSource (JStr u) t].
Proof.
  intros message out H. unfold extractSourcesFromMessage in H.
  destruct (collectSources (parts message) []) as [cited|e] eqn:Hc;
    simpl in H; [|discriminate].
  inversion H; subst out; clear H.
  exists cited. split; [reflexivity|]. split.
  - intros s. apply dedupe_incl.
  - intros u Hin. destruct (firstCitation_cited _ _ Hin) as [t Ht].
    exists t. split; [assumption|].
    rewrite dedupe_first by reflexivity. now rewrite Ht.
Qed.

Lemma C3_sources_deduplicated_witness :
  extractSourcesFromMessage twoOutputs
  = Normal [mkSource (JStr (lit "https://a.example")) (JStr (lit "First"));
            mkSource (JStr (lit "https://b.example")) (JStr (lit "https://b.example"))]
  /\ exists cited,
    collectSources twoOutputs.(parts) [] = Normal cited
    /\ (forall s, In s [mkSource (JStr (lit "https://a.example")) (JStr (lit "First"));
                        mkSource (JStr (lit "https://b.example"))
                                 (JStr (lit "https://b.example"))] -> In s cited)
    /\ forall u, In (JStr u) (map source_url cited) ->
         exists t, firstCitation u cited = Some (mkSource (JStr u) t)
                   /\ entriesFor u
                        [mkSource (JStr (lit "https://a.example")) (JStr (lit "First"));
                         mkSource (JStr (lit "https://b.example"))
                                  (JStr (lit "https://b.example"))]
                      = [mkSource (JStr u) t].
Proof.
  split; [reflexivity|].
  apply (C3_sources_deduplicated twoOutputs). reflexivity.
Defined.

Lemma forEachResult_returns : forall rs sources,
  forallb notNullish rs = true ->
  exists out, forEachResult rs sources = Normal out.
Proof.
  induction rs as [|r rs IH]; intros sources H; simpl in *.
  - now exists sources.
  - apply andb_true_iff in H as [Hr Hrs].
    unfold pushResult.
    destruct r; try discriminate; simpl;
      try (now apply IH).
    destruct (truthy (lookup (lit "url") props)); simpl; now apply IH.
Qed.

Lemma collectSources_returns : forall ps sources,
  (forall p, In p ps -> forallb notNullish (visitedResults p.(output)) = true) ->
  exists out, collectSources ps sources = Normal out.
Proof.
  induction ps as [|p ps IH]; intros sources H; simpl.
  - now exists sources.
  - assert (Hp := H p (or_introl eq_refl)).
    assert (Hps : forall q, In q ps ->
                  forallb notNullish (visitedResults (output q)) = true)
      by (intros q Hq; apply H; now right).
    unfold collectPart.
    set (src := if JS.eqb (type p) (lit "source-url") then _ else _).
    destruct (startsWith (lit "tool-") (type p)); simpl; [|now apply IH].
    destruct (output p) as [| |b|n|str|rs|props] eqn:Ho; simpl in *;
      try (now apply IH).
    + destruct b; simpl; now apply IH.
    + destruct (Z.eqb n 0); simpl; now apply IH.
    + destruct str; simpl; now apply IH.
    + destruct (forEachResult_returns rs src Hp) as [o Heq]. rewrite Heq.
      simpl. now apply IH.
    + destruct (lookup (lit "results") props) eqn:Hl; simpl;
        try (destruct (truthy (lookup (lit "url") props)); simpl; now apply IH).
      destruct (forEachResult_returns items src Hp) as [o Heq]. rewrite Heq.
      simpl. now apply IH.
Qed.

(** [extractSourcesFromMessage] returns for every message whose tool
    outputs list no [null] or [undefined] result. *)
Lemma extractSources_returns : forall message,
  (forall p, In p message.(parts) ->
             forallb notNullish (visitedResults p.(output)) = true) ->
  exists out, extractSourcesFromMessage message = Normal out.
Proof.
  intros message H. unfold extractSourcesFromMessage.
  destruct (collectSources_returns _ [] H) as [c Hc]. rewrite Hc. simpl.
  now eexists.
Qed.

(** ** The text heuristics *)

Lemma startsWith_CI : forall p s, startsWith p s = true -> startsWithCI p s = true.
Proof.
  induction p as [|x p IH]; intros [|y s] H; simpl in *; try reflexivity;
    try discriminate.
  apply andb_true_iff in H as [Hx Hr]. apply N.eqb_eq in Hx. subst.
  now rewrite N.eqb_refl, IH.
Qed.

Lemma includes_at : forall p s,
  includes p s = true -> exists k, startsWith p (skipn k s) = true.
Proof.
  induction s as [|c s IH]; simpl; intros H.
  - rewrite orb_false_r in H. now exists 0.
  - apply orb_true_iff in H as [H|H].
    + now exists 0.
    + destruct (IH H) as [k Hk]. now exists (S k).
Qed.

Lemma countMatches_zero : forall s skip,
  countMatches s skip = 0 ->
  forall k, skip <= k -> tangentAlt (skipn k s) = None.
Proof.
  induction s as [|c s IH]; intros skip H k Hk.
  - now destruct k.
  - simpl in H. destruct skip as [|j].
    + destruct (tangentAlt (c :: s)) eqn:Ht; [discriminate|].
      destruct k as [|k]; [assumption|].
      simpl. apply (IH 0 H). lia.
    + destruct k as [|k]; [lia|].
      simpl. apply (IH j H). lia.
Qed.

(** A text without a match of the tangent pattern contains none of the
    three phrases. *)
Lemma no_mention_no_phrase : forall text,
  tangentMentions text = 0 ->
  includes (lit "got distracted") text = false
  /\ includes (lit "side quest") text = false
  /\ includes (lit "tangent") text = false.
Proof.
  intros text H.
  assert (Hno : forall k, tangentAlt (skipn k text) = None)
    by (intros k; apply (countMatches_zero text 0 H); lia).
  repeat split;
    (match goal with |- includes ?p _ = false => destruct (includes p text) eqn:Hi end;
     [|reflexivity]);
    apply includes_at in Hi as [k Hk]; apply startsWith_CI in Hk;
    specialize (Hno k); unfold tangentAlt in Hno;
    repeat match type of Hno with
           | (if ?b then _ else _) = None => destruct b; try discriminate
           end.
Qed.

Section RegexFacts.
Variable stop : jsstring -> bool.

Lemma lazyStar_prefix : forall s g,
  lazyStar stop s = Some g -> exists post, s = g ++ post.
Proof.
  induction s as [|c s IH]; intros g H; simpl in H.
  - destruct (stop []); inversion H; subst. now exists [].
  - destruct (stop (c :: s)).
    + inversion H; subst. now exists (c :: s).
    + destruct (lazyStar stop s) as [g'|] eqn:Hg; [|discriminate].
      inversion H; subst. destruct (IH g' eq_refl) as [post Hp].
      exists post. simpl. now rewrite <- Hp.
Qed.

Lemma lazyPlus_prefix : forall s g,
  lazyPlus stop s = Some g -> exists post, s = g ++ post.
Proof.
  intros [|c s] g H; simpl in H; [discriminate|].
  destruct (lazyStar stop s) as [g'|] eqn:Hg; [|discriminate].
  inversion H; subst. destruct (lazyStar_prefix _ _ Hg) as [post Hp].
  exists post. simpl. now rewrite <- Hp.
Qed.

Lemma spacesThen_inside : forall s g,
  spacesThen stop s = Some g -> exists mid post, s = mid ++ g ++ post.
Proof.
  induction s as [|c s IH]; intros g H.
  - discriminate.
  - cbn [spacesThen] in H.
    assert (Hhere : lazyPlus stop (c :: s) = Some g ->
                    exists mid post, c :: s = mid ++ g ++ post).
    { intros Hl. destruct (lazyPlus_prefix _ _ Hl) as [post Hp].
      now exists [], post. }
    destruct (isSpace c); [|now apply Hhere].
    destruct (spacesThen stop s) as [g'|] eqn:Hg; [|now apply Hhere].
    inversion H; subst. destruct (IH g eq_refl) as (mid & post & Hp).
    exists (c :: mid), post. simpl. now rewrite <- Hp.
Qed.

Lemma optThen_inside : forall s g,
  optThen stop s = Some g -> exists mid post, s = mid ++ g ++ post.
Proof.
  intros [|c s] g H; unfold optThen in H.
  - discriminate.
  - destruct (isColonDash c); [|now apply spacesThen_inside].
    destruct (spacesThen stop s) as [g'|] eqn:Hg; [|now apply spacesThen_inside].
    inversion H; subst. destruct (spacesThen_inside _ _ Hg) as (mid & post & Hp).
    exists (c :: mid), post. simpl. now rewrite <- Hp.
Qed.

(** The captured group lies in the text after the header. *)
Lemma matchSection_inside : forall header s g,
  matchSection stop header s = Some g ->
  exists pre mid post, s = pre ++ header ++ mid ++ g ++ post.
Proof.
  intros header. induction s as [|c s IH]; intros g H.
  - cbn [matchSection] in H.
    destruct (startsWith header []) eqn:Hs; [|discriminate].
    destruct (optThen stop (skipn (length header) [])) eqn:Ho; [|discriminate].
    inversion H; subst.
    destruct (optThen_inside _ _ Ho) as (mid & post & Hp).
    exists [], mid, post. simpl. rewrite <- Hp. now apply startsWith_split.
  - cbn [matchSection] in H.
    assert (Hnext : matchSection stop header s = Some g ->
                    exists pre mid post, c :: s = pre ++ header ++ mid ++ g ++ post).
    { intros Hm. destruct (IH g Hm) as (pre & mid & post & Hp).
      exists (c :: pre), mid, post. simpl. now rewrite <- Hp. }
    destruct (startsWith header (c :: s)) eqn:Hs; [|now apply Hnext].
    destruct (optThen stop (skipn (length header) (c :: s))) eqn:Ho;
      [|now apply Hnext].
    inversion H; subst.
    destruct (optThen_inside _ _ Ho) as (mid & post & Hp).
    exists [], mid, post. simpl app. rewrite <- Hp. now apply startsWith_split.
Qed.
End RegexFacts.

Lemma bulletLines_from_bullets : forall block l,
  In l (bulletLines block) ->
  exists raw, In raw (splitOn isLF block) /\ isBulletLine raw = true
              /\ l = trim (stripBullet raw).
Proof.
  intros block l H. unfold bulletLines in H.
  apply filter_In in H as [H _].
  apply in_map_iff in H as (raw & Heq & Hraw).
  apply filter_In in Hraw as [Hin Hb].
  exists raw. now repeat split.
Qed.

Lemma sideQuest_updates_count_only : forall text u,
  In u (sideQuestSectionUpdates text ++ tangentMentionUpdates text) ->
  isLogUpdate u = false.
Proof.
  intros text u H. apply in_app_or in H as [H|H].
  - unfold sideQuestSectionUpdates in H.
    destruct (includes _ text); [|contradiction].
    destruct (matchSection _ _ text); [|contradiction].
    destruct H as [H|[]]. now subst.
  - unfold tangentMentionUpdates in H.
    destruct (_ || _); [|contradiction].
    destruct H as [H|[]]. now subst.
Qed.

(** C5 (as amended).  A text part that contains neither [Searches I ran]
    nor [Probably irrelevant but interesting] and has no match of the
    tangent pattern queues no update at all; and every search-log update
    a text part queues comes from a bulleted line of the block that
    follows a [Searches I ran] header in the text. *)
Theorem C5_text_heuristics : forall text,
  (namesCodeMarker text = false -> processText text = [])
  /\ (forall u, In u (processText text) -> isLogUpdate u = true ->
        exists pre mid block post raw,
          text = pre ++ lit "Searches I ran" ++ mid ++ block ++ post
          /\ In raw (splitOn isLF block) /\ isBulletLine raw = true
          /\ In u (lineUpdates (trim (stripBullet raw)))).
Proof.
  intros text. split.
  - intros H. unfold namesCodeMarker in H.
    apply orb_false_iff in H as [H Hm]. apply orb_false_iff in H as [Hs Hp].
    apply Nat.ltb_ge in Hm.
    assert (Hz : tangentMentions text = 0) by lia.
    destruct (no_mention_no_phrase text Hz) as (H1 & H2 & H3).
    unfold processText, sideQuestSectionUpdates, tangentMentionUpdates,
      searchSectionUpdates.
    now rewrite Hs, Hp, H1, H2, H3.
  - intros u Hin Hlog. unfold processText in Hin.
    rewrite app_assoc in Hin. apply in_app_or in Hin as [Hin|Hin].
    + apply sideQuest_updates_count_only in Hin. congruence.
    + unfold searchSectionUpdates in Hin.
      destruct (includes (lit "Searches I ran") text); [|contradiction].
      destruct (matchSection searchStop (lit "Searches I ran") text) as [g|] eqn:Hm;
        [|contradiction].
      apply in_flat_map in Hin as (l & Hl & Hu).
      destruct (matchSection_inside _ _ _ _ Hm) as (pre & mid & post & Htext).
      destruct (bulletLines_from_bullets _ _ Hl) as (raw & Hraw & Hb & Heq).
      exists pre, mid, g, post, raw. subst l. now repeat split.
Qed.

Lemma C5_text_heuristics_witness :
  processText (lit "# Answer: Beirut") = []
  /\ exists pre mid block post raw,
       searchesSection = pre ++ lit "Searches I ran" ++ mid ++ block ++ post
       /\ In raw (splitOn isLF block) /\ isBulletLine raw = true
       /\ In (LogQueryOnly (lit "capital of Lebanon"))
             (lineUpdates (trim (stripBullet raw))).
Proof.
  split.
  - apply (proj1 (C5_text_heuristics (lit "# Answer: Beirut"))). reflexivity.
  - apply (proj2 (C5_text_heuristics searchesSection)).
    + vm_compute. now left.
    + reflexivity.
Defined.

(** C5 (as stated) fails: a text with none of the markers the claim names
    still adds to the side-quest counter, because the page counts the
    bullets under [Probably irrelevant but interesting]. *)
Lemma C5_counterexample :
  namesSpecMarker irrelevantSection = false
  /\ processText irrelevantSection = [AddSideQuests 1]
  /\ sideQuestCount
       (runEffect asciiLower 0 (mkState 0 [])
          [mkMessage (lit "m1") assistant [textPart irrelevantSection]]) = 1.
Proof. repeat split; vm_compute; reflexivity. Qed.

(** ** The tangent-mention counter *)

(** The cap: whatever the text, the mention rule adds at most 2. *)
Lemma tangentMention_cap : forall text,
  sideQuestIncrement (tangentMentionUpdates text) <= 2.
Proof.
  intros text. unfold tangentMentionUpdates.
  destruct (_ || _); simpl; lia.
Qed.

(** When the text contains one of the three phrases as written, the rule
    adds the minimum of the number of matches and 2. *)
Lemma tangentMention_min : forall text,
  includes (lit "got distracted") text || includes (lit "side quest") text
  || includes (lit "tangent") text = true ->
  sideQuestIncrement (tangentMentionUpdates text) = Nat.min (tangentMentions text) 2.
Proof.
  intros text H. unfold tangentMentionUpdates. rewrite H. simpl. lia.
Qed.

(** C10.  On the header [# Random Tangents] the pattern
    [/got distracted|side quest|tangent/gi] has one match, so the rule of
    the claim adds min(1, 2) = 1; the page adds nothing, because its guard
    [text.includes("tangent")] compares letter case. *)
Theorem C10_capitalised_mention_dropped :
  tangentMentions randomTangentsHeader = 1
  /\ Nat.min (tangentMentions randomTangentsHeader) 2 = 1
  /\ tangentMentionUpdates randomTangentsHeader = []
  /\ sideQuestIncrement (tangentMentionUpdates randomTangentsHeader) = 0
  /\ sideQuestCount
       (runEffect asciiLower 0 (mkState 0 [])
          [mkMessage (lit "m1") assistant [textPart randomTangentsHeader]]) = 0.
Proof. repeat split; vm_compute; reflexivity. Qed.

(** ** The search log *)

Lemma NoDup_snoc : forall (A : Type) (l : list A) (x : A),
  NoDup l -> ~ In x l -> NoDup (l ++ [x]).
Proof.
  induction l as [|a l IH]; intros x Hnd Hx; simpl.
  - constructor; [intros []|constructor].
  - inversion Hnd; subst. constructor.
    + intros Hin. apply in_app_or in Hin as [Hin|[Hin|[]]]; [contradiction|].
      subst. apply Hx. now left.
    + apply IH; [assumption|]. intros Hin. apply Hx. now right.
Qed.

(** The two updaters that compare query and reason keep the log free of
    duplicates. *)
Lemma LogSearch_keeps_NoDup : forall now st q r,
  NoDup (logKeys st.(searchLog)) ->
  NoDup (logKeys (applyUpdate now st (LogSearch q r)).(searchLog)).
Proof.
  intros now st q r Hnd. simpl.
  destruct (existsb _ (searchLog st)) eqn:He; [assumption|].
  simpl. unfold logKeys. rewrite map_app. simpl.
  apply NoDup_snoc; [assumption|].
  intros Hin. apply in_map_iff in Hin as (e & Heq & Hin).
  assert (Hex : existsb (fun entry => JS.eqb (entry_query entry) q
                                      && JS.eqb (entry_reason entry) r)
                  (searchLog st) = true).
  { apply existsb_exists. exists e. split; [assumption|].
    inversion Heq; subst. now rewrite !eqb_refl. }
  congruence.
Qed.

(** The updater of a line without a reason compares with the empty
    reason but stores [No reason provided]: once the entry is there, the
    same line adds it again. *)
Lemma LogQueryOnly_adds_again : forall now st q,
  (forall e, In e st.(searchLog) -> entry_reason e <> []) ->
  searchLog (applyUpdate now st (LogQueryOnly q))
  = searchLog st ++ [mkEntry q (lit "No reason provided") now].
Proof.
  intros now st q Hne. simpl.
  destruct (existsb _ (searchLog st)) eqn:He; [|reflexivity].
  apply existsb_exists in He as (e & Hin & He).
  apply andb_true_iff in He as [_ He].
  specialize (Hne e Hin). destruct (entry_reason e); [congruence|discriminate].
Qed.

(** C9.  The assistant text [Searches I ran:] followed by the bullet
    [- capital of Lebanon] is processed twice, as on every update of the
    message list: the log then holds the pair (capital of Lebanon,
    No reason provided) twice. *)
Theorem C9_query_only_line_logged_twice :
  let st1 := runEffect asciiLower 0 (mkState 0 []) [searchesMessage] in
  let st2 := runEffect asciiLower 1 st1 [searchesMessage] in
  logKeys st1.(searchLog) = [(lit "capital of Lebanon", lit "No reason provided")]
  /\ logKeys st2.(searchLog)
     = [(lit "capital of Lebanon", lit "No reason provided");
        (lit "capital of Lebanon", lit "No reason provided")]
  /\ ~ NoDup (logKeys st2.(searchLog)).
Proof.
  cbv zeta. split; [vm_compute; reflexivity|].
  split; [vm_compute; reflexivity|].
  intros Hnd. vm_compute in Hnd. inversion Hnd as [|x l Hnot Hrest]; subst.
  apply Hnot. now left.
Qed.

(** ** The POST handler *)

(** C4 (as amended).  When the handler's [try] block throws before the
    stream is started, the handler answers with a response of its own:
    status 500, which is not a success status, content type
    [application/json], and a payload whose [error] is the message of the
    thrown error, or [Internal server error] when that message is
    empty. *)
Theorem C4_request_error_payload : forall json message,
  tryBlock json = Throw message ->
  POST json
  = JsonResponse 500 [(lit "Content-Type", lit "application/json")]
      (JObj [(lit "error", JStr (errorMessage message))])
  /\ (exists st, status_of (POST json) = Some st /\ isSuccess st = false)
  /\ error_of (POST json)
     = Some (match message with [] => lit "Internal server error" | _ => message end).
Proof.
  intros json message H. unfold POST. rewrite H. repeat split.
  exists 500%Z. now split.
Qed.

Lemma C4_request_error_payload_witness :
  tryBlock (Normal JNull) = Throw (lit "TypeError: Cannot read properties")
  /\ POST (Normal JNull)
     = JsonResponse 500 [(lit "Content-Type", lit "application/json")]
         (JObj [(lit "error",
                 JStr (errorMessage (lit "TypeError: Cannot read properties")))])
  /\ (exists st, status_of (POST (Normal JNull)) = Some st /\ isSuccess st = false)
  /\ error_of (POST (Normal JNull)) = Some (lit "TypeError: Cannot read properties").
Proof.
  split; [reflexivity|].
  apply (C4_request_error_payload (Normal JNull) (lit "TypeError: Cannot read properties")).
  reflexivity.
Defined.

(** C4 (as stated) fails: for a body that is not JSON the payload carries
    the parser's own message, not a generic one, and two different
    failures give two different payloads. *)
Lemma C4_counterexample :
  tryBlock (Throw parserMessage) = Throw parserMessage
  /\ error_of (POST (Throw parserMessage)) = Some parserMessage
  /\ error_of (POST (Throw parserMessage)) <> Some (lit "Internal server error")
  /\ error_of (POST (Throw parserMessage)) <> error_of (POST (Normal JNull)).
Proof.
  repeat split; try reflexivity; vm_compute; discriminate.
Qed.

(** ** The agent loops *)

Lemma roundTrips_app : forall a l1 l2,
  roundTrips a (l1 ++ l2) = roundTrips a l1 + roundTrips a l2.
Proof.
  intros. unfold roundTrips. now rewrite filter_app, length_app.
Qed.

Lemma findTool_In : forall n ts t,
  findTool n ts = Some t -> exists k, In (k, t) ts.
Proof.
  induction ts as [|[k t'] ts IH]; intros t H; simpl in H; [discriminate|].
  destruct (JS.eqb n k).
  - inversion H; subst. exists k. now left.
  - destruct (IH t H) as [k' Hk]. exists k'. now right.
Qed.

Section LoopFacts.
Variable llm : jsstring -> jsstring -> Prompt -> list StepResult ->
               option AbortSignal -> ModelOutcome.

(** A property of events that every tool execution of an agent
    respects holds of every event of the tool dispatch. *)
Lemma executeTools_Forall : forall (P : Event -> Prop) ts ctx,
  (forall k t, In (k, t) ts -> forall i, Forall P (snd (execute t i ctx))) ->
  forall calls, Forall P (snd (executeTools ts ctx calls)).
Proof.
  intros P ts ctx Hts. induction calls as [|c calls IH]; simpl; [constructor|].
  destruct (executeToolCall ts ctx c) as [o l1] eqn:Hc.
  destruct (executeTools ts ctx calls) as [os l2]. simpl in *.
  apply Forall_app. split; [|assumption].
  unfold executeToolCall in Hc.
  destruct (findTool (toolName c) ts) as [t|] eqn:Hf.
  - destruct (findTool_In _ _ _ Hf) as [k Hk].
    destruct (inputSchema t (input c)) as [i|].
    + specialize (Hts k t Hk i). rewrite Hc in Hts. exact Hts.
    + inversion Hc; subst. constructor.
  - inversion Hc; subst. constructor.
Qed.

(** ... and of every event of the agent's loop, when it holds of the
    agent's own model calls. *)
Lemma loop_Forall : forall (P : Event -> Prop) a p sig,
  P (EvModelCall (name a) sig) ->
  (forall k t, In (k, t) (tools a) ->
               forall i, Forall P (snd (execute t i (mkContext sig)))) ->
  forall budget steps, Forall P (snd (loop llm budget a p sig steps)).
Proof.
  intros P a p sig Hcall Hts. induction budget as [|b IH]; intros steps; simpl.
  - constructor.
  - destruct (llm (model a) (instructions a) p steps sig) as [r|e|];
      try (simpl; constructor; [assumption|constructor]).
    assert (Ht := executeTools_Forall P _ _ Hts (response_toolCalls r)).
    destruct (executeTools (tools a) (mkContext sig) (response_toolCalls r))
      as [results l1].
    simpl in Ht.
    destruct (response_toolCalls r) as [|c cs].
    + simpl. constructor; assumption.
    + specialize (IH (steps ++ [mkStep (response_text r) (c :: cs) results])).
      destruct (loop llm b a p sig _) as [out l2]. simpl in *.
      constructor; [assumption|]. apply Forall_app. now split.
Qed.

Lemma roundTrips_none : forall n log,
  Forall (fun e => isModelCallOf n e = false) log -> roundTrips n log = 0.
Proof.
  intros n log H. unfold roundTrips.
  induction H as [|e l He _ IH]; simpl; [reflexivity|]. now rewrite He.
Qed.

(** The loop makes at most [budget] model calls of its own, when the
    tools make none in the agent's name. *)
Lemma loop_bound : forall a p sig,
  (forall k t, In (k, t) (tools a) ->
     forall i, Forall (fun e => isModelCallOf (name a) e = false)
                 (snd (execute t i (mkContext sig)))) ->
  forall budget steps,
    roundTrips (name a) (snd (loop llm budget a p sig steps)) <= budget.
Proof.
  intros a p sig Hts. induction budget as [|b IH]; intros steps; simpl.
  - unfold roundTrips. simpl. lia.
  - assert (Hself : roundTrips (name a) [EvModelCall (name a) sig] <= S b).
    { unfold roundTrips. simpl. destruct (AgentName_eqb _ _); simpl; lia. }
    destruct (llm (model a) (instructions a) p steps sig) as [r|e|];
      try (simpl; exact Hself).
    assert (Ht := executeTools_Forall _ _ _ Hts (response_toolCalls r)).
    apply roundTrips_none in Ht.
    destruct (executeTools (tools a) (mkContext sig) (response_toolCalls r))
      as [results l1].
    simpl in Ht.
    destruct (response_toolCalls r) as [|c cs].
    + simpl snd.
      change (EvModelCall (name a) sig :: l1)
        with ([EvModelCall (name a) sig] ++ l1).
      rewrite roundTrips_app, Ht.
      unfold roundTrips. simpl. destruct (AgentName_eqb _ _); simpl; lia.
    + specialize (IH (steps ++ [mkStep (response_text r) (c :: cs) results])).
      destruct (loop llm b a p sig _) as [out l2]. simpl in *.
      change (EvModelCall (name a) sig :: l1 ++ l2)
        with ([EvModelCall (name a) sig] ++ l1 ++ l2).
      rewrite !roundTrips_app, Ht.
      unfold roundTrips at 1. simpl. destruct (AgentName_eqb _ _); simpl; lia.
Qed.

Lemma AgentName_eqb_refl : forall a, AgentName_eqb a a = true.
Proof. now intros []. Qed.

(** A model that answers every call lets the loop end normally. *)
Lemma loop_normal : forall a p sig,
  modelAnswers llm a p sig ->
  forall budget steps, normal (fst (loop llm budget a p sig steps)).
Proof.
  intros a p sig Hok. induction budget as [|b IH]; intros steps; simpl.
  - now eexists _, _.
  - destruct (Hok steps) as [r Hr]. rewrite Hr.
    destruct (executeTools (tools a) (mkContext sig) (response_toolCalls r))
      as [results l1].
    destruct (response_toolCalls r) as [|c cs].
    + simpl. now eexists _, _.
    + specialize (IH (steps ++ [mkStep (response_text r) (c :: cs) results])).
      destruct (loop llm b a p sig _) as [out l2]. exact IH.
Qed.

(** A model that asks for a tool at every step makes the loop use up
    its budget: exactly [budget] round-trips and as many steps. *)
Lemma loop_exhausts : forall a p sig,
  (forall k t, In (k, t) (tools a) ->
     forall i, Forall (fun e => isModelCallOf (name a) e = false)
                 (snd (execute t i (mkContext sig)))) ->
  modelKeepsCalling llm a p sig ->
  forall budget steps,
    roundTrips (name a) (snd (loop llm budget a p sig steps)) = budget
    /\ exists text steps',
         fst (loop llm budget a p sig steps) = Completed text steps'
         /\ length steps' = length steps + budget.
Proof.
  intros a p sig Hts Hk. induction budget as [|b IH]; intros steps; simpl.
  - split; [reflexivity|]. eexists _, _. split; [reflexivity|lia].
  - destruct (Hk steps) as (r & Hr & Hcalls). rewrite Hr.
    assert (Ht := executeTools_Forall _ _ _ Hts (response_toolCalls r)).
    apply roundTrips_none in Ht.
    destruct (executeTools (tools a) (mkContext sig) (response_toolCalls r))
      as [results l1].
    simpl in Ht.
    destruct (response_toolCalls r) as [|c cs]; [congruence|].
    specialize (IH (steps ++ [mkStep (response_text r) (c :: cs) results])).
    destruct (loop llm b a p sig _) as [out l2]. simpl in *.
    destruct IH as (Hn & text & steps' & Hout & Hlen).
    split.
    + change (EvModelCall (name a) sig :: l1 ++ l2)
        with ([EvModelCall (name a) sig] ++ l1 ++ l2).
      rewrite !roundTrips_app, Ht, Hn.
      unfold roundTrips. simpl. now rewrite AgentName_eqb_refl.
    + exists text, steps'. split; [assumption|].
      rewrite Hlen, length_app. simpl. lia.
Qed.

Lemma generate_log : forall a p sig,
  snd (generate llm a p sig)
  = EvGenerate (name a) p sig :: snd (loop llm (stepBudget a) a p sig []).
Proof.
  intros. unfold generate. now destruct (loop llm (stepBudget a) a p sig []).
Qed.

Lemma generate_outcome : forall a p sig,
  fst (generate llm a p sig) = fst (loop llm (stepBudget a) a p sig []).
Proof.
  intros. unfold generate. now destruct (loop llm (stepBudget a) a p sig []).
Qed.

Lemma generate_roundTrips : forall n a p sig,
  roundTrips n (snd (generate llm a p sig))
  = roundTrips n (snd (loop llm (stepBudget a) a p sig [])).
Proof.
  intros. rewrite generate_log. reflexivity.
Qed.

Lemma returnText_log : forall r, snd (returnText r) = snd r.
Proof. intros [[?|?|] l]; reflexivity. Qed.
End LoopFacts.

Section AgentFacts.
Variable llm : jsstring -> jsstring -> Prompt -> list StepResult ->
               option AbortSignal -> ModelOutcome.
Variable search : nat -> jsstring -> option AbortSignal -> ToolOutcome.

(** Every tool of every agent respects a property of events that holds
    of searches, of [generate] calls and of the sub-agents' model calls:
    first for the search tool and the two agents without tools. *)
Lemma tavilySearch_Forall : forall (P : Event -> Prop) n ctx,
  (forall q, P (EvSearch n q (ctx_abortSignal ctx))) ->
  forall i, Forall P (snd (execute (tavilySearch search n) i ctx)).
Proof.
  intros P n ctx HP i. simpl. constructor; [apply HP|constructor].
Qed.

Lemma no_tools_Forall : forall (P : Event -> Prop) a p sig,
  tools a = [] ->
  P (EvGenerate (name a) p sig) -> P (EvModelCall (name a) sig) ->
  Forall P (snd (generate llm a p sig)).
Proof.
  intros P a p sig Hnil Hg Hm. rewrite generate_log. constructor; [assumption|].
  apply loop_Forall; [assumption|]. rewrite Hnil. intros k t [].
Qed.

Lemma randomTangents_Forall : forall (P : Event -> Prop) p sig,
  P (EvGenerate randomTangentsAgent p sig) ->
  P (EvModelCall randomTangentsAgent sig) ->
  (forall q, P (EvSearch 3 q sig)) ->
  Forall P (snd (generate llm (randomTangents search) p sig)).
Proof.
  intros P p sig Hg Hm Hs. rewrite generate_log. constructor; [assumption|].
  apply loop_Forall; [assumption|].
  intros k t [Hin|[]] i. inversion Hin; subst.
  apply tavilySearch_Forall. exact Hs.
Qed.

(** The tools of the orchestrator make no model call in its name. *)
Lemma chat_tools_silent : forall sig k t,
  In (k, t) (tools (createChatAgent llm search)) ->
  forall i, Forall (fun e => isModelCallOf chatAgent e = false)
              (snd (execute t i (mkContext sig))).
Proof.
  intros sig k t Hin.
  simpl in Hin. destruct Hin as [H|[H|[H|[H|[]]]]]; inversion H; subst; intros i.
  - now apply tavilySearch_Forall.
  - cbn [execute findRandomTangentsTool]. rewrite returnText_log.
    now apply randomTangents_Forall.
  - cbn [execute factCheckTool]. rewrite returnText_log.
    now apply no_tools_Forall.
  - cbn [execute summarizeTool]. rewrite returnText_log.
    now apply no_tools_Forall.
Qed.

Lemma randomTangents_tools_silent : forall sig k t,
  In (k, t) (tools (randomTangents search)) ->
  forall i, Forall (fun e => isModelCallOf randomTangentsAgent e = false)
              (snd (execute t i (mkContext sig))).
Proof.
  intros sig k t [Hin|[]] i. inversion Hin; subst.
  now apply tavilySearch_Forall.
Qed.

Lemma agents_tools_silent : forall a sig,
  In a (theAgents llm search) ->
  forall k t, In (k, t) (tools a) ->
    forall i, Forall (fun e => isModelCallOf (name a) e = false)
                (snd (execute t i (mkContext sig))).
Proof.
  intros a sig [H|[H|[H|[H|[]]]]]; subst a.
  - apply chat_tools_silent.
  - intros k t [].
  - intros k t [].
  - apply randomTangents_tools_silent.
Qed.
End AgentFacts.

(** C1.  Whatever the model and the search provider answer, a run of the
    orchestrator makes at most 15 model round-trips and a run of the
    fact-checker, the summarizer or the random-tangents agent at most 5;
    a run whose model calls are all answered ends normally, and a run
    whose model asks for a tool at every step uses exactly its budget and
    then ends normally, with no error. *)
Theorem C1_step_budget : forall llm search p sig,
  (roundTrips chatAgent (snd (generate llm (createChatAgent llm search) p sig)) <= 15
   /\ roundTrips factCheckerAgent (snd (generate llm factChecker p sig)) <= 5
   /\ roundTrips summarizerAgent (snd (generate llm summarizer p sig)) <= 5
   /\ roundTrips randomTangentsAgent
        (snd (generate llm (randomTangents search) p sig)) <= 5)
  /\ forall a, In a (theAgents llm search) ->
       (modelAnswers llm a p sig -> normal (fst (generate llm a p sig)))
       /\ (modelKeepsCalling llm a p sig ->
             roundTrips (name a) (snd (generate llm a p sig)) = stepBudget a
             /\ normal (fst (generate llm a p sig))).
Proof.
  intros llm search p sig. split.
  - repeat split; rewrite generate_roundTrips.
    + apply (loop_bound llm (createChatAgent llm search)).
      apply chat_tools_silent.
    + apply (loop_bound llm factChecker). intros k t [].
    + apply (loop_bound llm summarizer). intros k t [].
    + apply (loop_bound llm (randomTangents search)).
      apply randomTangents_tools_silent.
  - intros a Ha. split.
    + intros Hok. rewrite generate_outcome. now apply loop_normal.
    + intros Hk. rewrite generate_roundTrips, generate_outcome.
      destruct (loop_exhausts llm a p sig
                  (agents_tools_silent llm search a sig Ha) Hk (stepBudget a) [])
        as (Hn & text & steps & Hout & _).
      split; [assumption|]. now exists text, steps.
Qed.

Lemma C1_step_budget_witness :
  roundTrips chatAgent
    (snd (generate searchAgain (createChatAgent searchAgain noResults) question None))
  = 15
  /\ normal (fst (generate searchAgain (createChatAgent searchAgain noResults)
                    question None)).
Proof.
  apply (proj2 (C1_step_budget searchAgain noResults question None)
           (createChatAgent searchAgain noResults)).
  - now left.
  - intros steps. eexists. split; [reflexivity|discriminate].
Defined.

(** ** The tool boundary *)

(** A schema that answers [None] does not accept. *)
Ltac rejected H := try (exfalso; apply H; reflexivity).

Section ToolBoundary.
Variable llm : jsstring -> jsstring -> Prompt -> list StepResult ->
               option AbortSignal -> ModelOutcome.
Variable search : nat -> jsstring -> option AbortSignal -> ToolOutcome.

Lemma factCheck_accepts : forall v,
  accepts (factCheckTool llm) v <-> hasString "researchNotes" v.
Proof.
  intros v. unfold accepts, hasString. cbn [inputSchema factCheckTool].
  unfold z_object, field, obind. split.
  - intros H. destruct v as [| |b|n|s|items|props]; rejected H.
    exists props.
    destruct (lookup (lit "researchNotes") props); simpl in H; rejected H.
    now eexists.
  - intros (props & s & Hv & Hl). subst v. rewrite Hl. simpl. discriminate.
Qed.

Lemma findRandomTangents_accepts : forall v,
  accepts (findRandomTangentsTool llm search) v
  <-> hasString "mainTopic" v /\ hasString "researchNotes" v.
Proof.
  intros v. unfold accepts, hasString. cbn [inputSchema findRandomTangentsTool].
  unfold z_object, field, obind. split.
  - intros H. destruct v as [| |b|n|s|items|props]; rejected H.
    destruct (lookup (lit "mainTopic") props) eqn:H1; simpl in H; rejected H.
    destruct (lookup (lit "researchNotes") props) eqn:H2; simpl in H; rejected H.
    split; exists props; eexists; split; eauto.
  - intros [(props & s & Hv & Hl) (props' & s' & Hv' & Hl')]. subst v.
    inversion Hv'; subst props'. rewrite Hl, Hl'. simpl. discriminate.
Qed.

Lemma summarize_accepts : forall v,
  accepts (summarizeTool llm) v
  <-> hasString "factCheckedFindings" v /\ hasStringOrNothing "originalQuestion" v.
Proof.
  intros v. unfold accepts, hasString, hasStringOrNothing.
  cbn [inputSchema summarizeTool]. unfold z_object, field, obind, z_optional. split.
  - intros H. destruct v as [| |b|n|s|items|props]; rejected H.
    destruct (lookup (lit "factCheckedFindings") props) eqn:H1; simpl in H;
      rejected H.
    split; [exists props; eexists; split; eauto|].
    exists props. split; [reflexivity|].
    destruct (lookup (lit "originalQuestion") props) eqn:H2; simpl in H;
      rejected H; [now left|right; now eexists].
  - intros [(props & s & Hv & Hl) (props' & Hv' & Hq)]. subst v.
    inversion Hv'; subst props'. rewrite Hl. simpl.
    destruct Hq as [Hq|[q Hq]]; rewrite Hq; simpl; discriminate.
Qed.

(** The dispatch finds the three tools under their names. *)
Lemma chat_tools_found :
  findTool (lit "factCheck") (tools (createChatAgent llm search))
  = Some (factCheckTool llm)
  /\ findTool (lit "findRandomTangents") (tools (createChatAgent llm search))
     = Some (findRandomTangentsTool llm search)
  /\ findTool (lit "summarize") (tools (createChatAgent llm search))
     = Some (summarizeTool llm).
Proof. repeat split. Qed.

Lemma dispatch_rejects : forall ctx call k,
  In (toolName call, k) requiredFields ->
  lacks k (input call) ->
  exists e, executeToolCall (tools (createChatAgent llm search)) ctx call
            = (ToolError e, []).
Proof.
  intros ctx [cid cname cinput] k Hin Hlacks. unfold executeToolCall.
  cbn [toolName input] in *.
  destruct chat_tools_found as (Hfc & Hrt & Hsm).
  unfold requiredFields in Hin. cbn [In] in Hin.
  destruct Hin as [H|[H|[H|[H|[]]]]]; inversion H; subst cname k;
    rewrite ?Hfc, ?Hrt, ?Hsm; unfold lacks in Hlacks.
  - cbn [inputSchema factCheckTool]. unfold z_object, field, obind.
    destruct cinput; try (now eexists). rewrite Hlacks. now eexists.
  - cbn [inputSchema findRandomTangentsTool]. unfold z_object, field, obind.
    destruct cinput; try (now eexists). rewrite Hlacks. now eexists.
  - cbn [inputSchema findRandomTangentsTool]. unfold z_object, field, obind.
    destruct cinput; try (now eexists). rewrite Hlacks.
    destruct (z_string (lookup (lit "mainTopic") props)); now eexists.
  - cbn [inputSchema summarizeTool]. unfold z_object, field, obind.
    destruct cinput; try (now eexists). rewrite Hlacks. now eexists.
Qed.
End ToolBoundary.

(** C6.  The input schema of [factCheck] accepts exactly the objects
    whose [researchNotes] is a string, that of [findRandomTangents] those
    whose [mainTopic] and [researchNotes] are strings, that of [summarize]
    those whose [factCheckedFindings] is a string and whose
    [originalQuestion] is a string or absent; and a call of one of the
    three tools whose input lacks a required property is rejected by the
    dispatch with an error result and an empty log, so the wrapped
    sub-agent is not invoked. *)
Theorem C6_tool_input_validation : forall llm search,
  (forall v, accepts (factCheckTool llm) v <-> hasString "researchNotes" v)
  /\ (forall v, accepts (findRandomTangentsTool llm search) v
                <-> hasString "mainTopic" v /\ hasString "researchNotes" v)
  /\ (forall v, accepts (summarizeTool llm) v
                <-> hasString "factCheckedFindings" v
                    /\ hasStringOrNothing "originalQuestion" v)
  /\ (forall ctx call k,
        In (toolName call, k) requiredFields ->
        lacks k (input call) ->
        exists e, executeToolCall (tools (createChatAgent llm search)) ctx call
                  = (ToolError e, [])).
Proof.
  intros llm search. split; [apply factCheck_accepts|].
  split; [apply findRandomTangents_accepts|].
  split; [apply summarize_accepts|].
  apply dispatch_rejects.
Qed.

Lemma C6_tool_input_validation_witness :
  exists e,
    executeToolCall (tools (createChatAgent searchAgain noResults))
      (mkContext (Some 7)) callWithoutNotes
    = (ToolError e, []).
Proof.
  apply (proj2 (proj2 (proj2 (C6_tool_input_validation searchAgain noResults)))
           (mkContext (Some 7)) callWithoutNotes "researchNotes"%string).
  - now left.
  - reflexivity.
Defined.

(** ** Cancellation *)

Section Cancellation.
Variable llm : jsstring -> jsstring -> Prompt -> list StepResult ->
               option AbortSignal -> ModelOutcome.
Variable search : nat -> jsstring -> option AbortSignal -> ToolOutcome.

Lemma no_tools_spawns : forall a p ctx,
  tools a = [] ->
  spawnsWithSignal (name a) ctx (snd (generate llm a p (ctx_abortSignal ctx))).
Proof.
  intros a p ctx Hnil. unfold spawnsWithSignal. split.
  - rewrite generate_log. eexists _, _. split; [reflexivity|].
    apply loop_Forall; [reflexivity|]. rewrite Hnil. intros k t [].
  - now apply no_tools_Forall.
Qed.

Lemma randomTangents_spawns : forall p ctx,
  spawnsWithSignal randomTangentsAgent ctx
    (snd (generate llm (randomTangents search) p (ctx_abortSignal ctx))).
Proof.
  intros p ctx. unfold spawnsWithSignal. split.
  - rewrite generate_log. eexists _, _. split; [reflexivity|].
    apply loop_Forall; [reflexivity|].
    intros k t [Hin|[]] i. inversion Hin; subst.
    now apply tavilySearch_Forall.
  - now apply randomTangents_Forall.
Qed.
End Cancellation.

(** C7.  Every execution of the [factCheck], [summarize] or
    [findRandomTangents] tool makes one [generate] call, on the agent it
    wraps, with the abort signal of the tool's own context; and every
    model call and every search of the loop so started carries that same
    signal. *)
Theorem C7_abort_signal_propagated : forall llm search ctx,
  (forall input, spawnsWithSignal factCheckerAgent ctx
                   (snd (execute (factCheckTool llm) input ctx)))
  /\ (forall input, spawnsWithSignal summarizerAgent ctx
                      (snd (execute (summarizeTool llm) input ctx)))
  /\ (forall input, spawnsWithSignal randomTangentsAgent ctx
                      (snd (execute (findRandomTangentsTool llm search) input ctx))).
Proof.
  intros llm search ctx. split; [|split]; intros input.
  - cbn [execute factCheckTool]. rewrite returnText_log.
    now apply (no_tools_spawns llm factChecker).
  - cbn [execute summarizeTool]. rewrite returnText_log.
    now apply (no_tools_spawns llm summarizer).
  - cbn [execute findRandomTangentsTool]. rewrite returnText_log.
    apply randomTangents_spawns.
Qed.

(** ** The tool-call lifecycle *)

Lemma partState_app : forall cid a b,
  partState cid (a ++ b)
  = match partState cid a with Some s => Some s | None => partState cid b end.
Proof.
  induction a as [|[t|i st] a IH]; intros b; simpl; try apply IH; [reflexivity|].
  destruct (Nat.eqb cid i); [reflexivity|apply IH].
Qed.

Lemma appendText_partState : forall cid d ps,
  partState cid (appendText d ps) = partState cid ps.
Proof.
  intros cid d ps. unfold appendText.
  destruct (rev ps) as [|[t|i st] before] eqn:Hr.
  - rewrite partState_app. simpl. now destruct (partState cid ps).
  - assert (Hps : ps = rev before ++ [text_part t])
      by (rewrite <- (rev_involutive ps), Hr; reflexivity).
    rewrite Hps, !partState_app. simpl. reflexivity.
  - rewrite partState_app. simpl. now destruct (partState cid ps).
Qed.

Lemma setState_absent : forall cid s ps,
  partState cid ps = None -> setState cid s ps = None.
Proof.
  induction ps as [|[t|i st] ps IH]; intros H; simpl in *; [reflexivity| |].
  - now rewrite IH.
  - destruct (Nat.eqb cid i); [discriminate|]. now rewrite IH.
Qed.

Lemma setState_present : forall cid s ps s0,
  partState cid ps = Some s0 ->
  exists ps', setState cid s ps = Some ps'
              /\ partState cid ps' = Some s
              /\ forall j, j <> cid -> partState j ps' = partState j ps.
Proof.
  induction ps as [|[t|i st] ps IH]; intros s0 H; simpl in *; [discriminate| |].
  - destruct (IH s0 H) as (ps' & Hs & Hcid & Hj). rewrite Hs.
    exists (text_part t :: ps'). simpl. now repeat split.
  - destruct (Nat.eqb cid i) eqn:He.
    + apply Nat.eqb_eq in He. subst i.
      exists (tool_call_part cid s :: ps). simpl. rewrite Nat.eqb_refl.
      repeat split. intros j Hj. apply Nat.eqb_neq in Hj. now rewrite Hj.
    + destruct (IH s0 H) as (ps' & Hs & Hcid & Hj). rewrite Hs.
      exists (tool_call_part i st :: ps'). simpl. rewrite He.
      repeat split; [assumption|]. intros j Hne. rewrite (Hj j Hne). reflexivity.
Qed.

(** What a tool event does to the parts: the part of its call takes the
    state of the event, the other parts stay as they are. *)
Lemma apply_tool_event : forall ps cid e,
  partState cid (Stream.apply ps (tool_event cid e)) = Some (stateAfter e)
  /\ forall j, j <> cid ->
       partState j (Stream.apply ps (tool_event cid e)) = partState j ps.
Proof.
  intros ps cid e. simpl.
  destruct (partState cid ps) as [s0|] eqn:Hp.
  - destruct (setState_present cid (stateAfter e) ps s0 Hp) as (ps' & Hs & Hcid & Hj).
    rewrite Hs. now split.
  - rewrite (setState_absent cid (stateAfter e) ps Hp). split.
    + rewrite partState_app, Hp. simpl. now rewrite Nat.eqb_refl.
    + intros j Hne. rewrite partState_app. simpl.
      apply Nat.eqb_neq in Hne. rewrite Hne. now destruct (partState j ps).
Qed.

Lemma rank_stateAfter : forall e, rank (stateAfter e) = stage e.
Proof. now intros []. Qed.

Lemma emit_inStep : forall t ps ev t',
  inStep t ps -> emit t ev = Some t' -> inStep t' (Stream.apply ps ev).
Proof.
  intros t ps [d|cid e] t' Hinv Hemit; simpl in Hemit.
  - inversion Hemit; subst. intros j. cbn [Stream.apply].
    rewrite appendText_partState. apply Hinv.
  - assert (Ht' : t' = (cid, stage e) :: t).
    { destruct (lastStage cid t) as [st|]; [|now inversion Hemit].
      destruct (st <? stage e); now inversion Hemit. }
    subst t'. intros j. destruct (apply_tool_event ps cid e) as [Hcid Hother].
    simpl lastStage. destruct (Nat.eqb j cid) eqn:Hj.
    + apply Nat.eqb_eq in Hj. subst j. rewrite Hcid. simpl.
      now rewrite rank_stateAfter.
    + apply Nat.eqb_neq in Hj. rewrite (Hother j Hj). apply Hinv.
Qed.

Lemma emitAll_inStep : forall evs t ps t',
  inStep t ps -> emitAll t evs = Some t' -> inStep t' (fold_left Stream.apply evs ps).
Proof.
  induction evs as [|ev evs IH]; intros t ps t' Hinv H; simpl in *.
  - now inversion H; subst.
  - destruct (emit t ev) as [t1|] eqn:He; [|discriminate].
    apply (IH t1); [|assumption]. now apply (emit_inStep t).
Qed.

(** C2.  Along every sequence of events the transport emits, the next
    event leaves the state of a tool-call part as it is or moves it
    strictly forward on the path input-streaming, input-available,
    output-available or output-error; a part in the state output-available
    or output-error stays in it. *)
Theorem C2_tool_state_monotone : forall evs ev t t',
  emitAll [] evs = Some t ->
  emit t ev = Some t' ->
  forall cid s, partState cid (replay evs) = Some s ->
    exists s', partState cid (replay (evs ++ [ev])) = Some s'
               /\ (s' = s \/ rank s < rank s')
               /\ (isTerminal s = true -> s' = s).
Proof.
  intros evs ev t t' Hall Hemit cid s Hs.
  assert (Hinv : inStep t (replay evs)).
  { apply (emitAll_inStep evs [] [] t); [|assumption]. intros j. reflexivity. }
  unfold replay in *. rewrite fold_left_app. cbn [fold_left].
  set (ps := fold_left Stream.apply evs []) in *.
  destruct ev as [d|j e].
  - exists s. cbn [Stream.apply]. rewrite appendText_partState.
    split; [assumption|]. split; [now left|reflexivity].
  - destruct (apply_tool_event ps j e) as [Hcid Hother].
    destruct (Nat.eq_dec cid j) as [Heq|Hne].
    + subst j. exists (stateAfter e). split; [assumption|].
      assert (Hlt : rank s < rank (stateAfter e)).
      { specialize (Hinv cid). rewrite Hs in Hinv. simpl in Hinv, Hemit.
        rewrite <- Hinv in Hemit.
        destruct (rank s <? stage e) eqn:Hlt; [|discriminate].
        apply Nat.ltb_lt in Hlt. now rewrite rank_stateAfter. }
      split; [now right|].
      intros Hterm. destruct s; try discriminate; destruct e; simpl in Hlt; lia.
    + exists s. rewrite (Hother cid Hne).
      split; [assumption|]. split; [now left|reflexivity].
Qed.

Lemma C2_tool_state_monotone_witness :
  exists s', partState 1
               (replay (searchCallEvents
                        ++ [tool_event 1 (tool_call_result (JArr []))])) = Some s'
             /\ (s' = input_available \/ rank input_available < rank s')
             /\ (isTerminal input_available = true -> s' = input_available).
Proof.
  apply (C2_tool_state_monotone searchCallEvents
           (tool_event 1 (tool_call_result (JArr [])))
           [(1, 1); (1, 0)] [(1, 2); (1, 1); (1, 0)]);
    reflexivity.
Defined.

(* ================================================================== *)
(** * Further properties *)
(* ================================================================== *)

(** ** extractSourcesFromMessage: when it throws, what it returns *)

Lemma forEachResult_outcome : forall rs sources,
  (forallb notNullish rs = true -> exists out, forEachResult rs sources = Normal out)
  /\ (forallb notNullish rs = false -> exists e, forEachResult rs sources = Throw e).
Proof.
  induction rs as [|r rs IH]; intros sources; simpl.
  - split; [now exists sources|discriminate].
  - unfold pushResult.
    destruct r as [| |b|n|s|items|props]; simpl;
      try (split; [discriminate|now eexists]);
      try apply IH.
    destruct (truthy (lookup (lit "url") props)); simpl; apply IH.
Qed.

Lemma collectPart_outcome : forall p sources,
  (forallb notNullish (visits p) = true -> exists out, collectPart p sources = Normal out)
  /\ (forallb notNullish (visits p) = false -> exists e, collectPart p sources = Throw e).
Proof.
  intros p sources. unfold collectPart, visits.
  set (src := if JS.eqb (type p) (lit "source-url") then _ else _).
  destruct (startsWith (lit "tool-") (type p)); simpl;
    [|split; [now eexists|discriminate]].
  destruct (output p) as [| |b|n|str|rs|props]; simpl;
    try (split; [now eexists|discriminate]).
  - destruct b; simpl; (split; [now eexists|discriminate]).
  - destruct (Z.eqb n 0); simpl; (split; [now eexists|discriminate]).
  - destruct str; simpl; (split; [now eexists|discriminate]).
  - apply forEachResult_outcome.
  - destruct (lookup (lit "results") props); simpl;
      try (destruct (truthy (lookup (lit "url") props)); simpl;
           (split; [now eexists|discriminate])).
    apply forEachResult_outcome.
Qed.

Lemma collectSources_outcome : forall ps sources,
  (forallb (fun p => forallb notNullish (visits p)) ps = true ->
     exists out, collectSources ps sources = Normal out)
  /\ (forallb (fun p => forallb notNullish (visits p)) ps = false ->
        exists e, collectSources ps sources = Throw e).
Proof.
  induction ps as [|p ps IH]; intros sources; simpl.
  - split; [now eexists|discriminate].
  - destruct (collectPart_outcome p sources) as [Hok Hthrow].
    destruct (forallb notNullish (visits p)); simpl.
    + destruct (Hok eq_refl) as [out Hout]. rewrite Hout. simpl. apply IH.
    + split; [discriminate|]. intros _.
      destruct (Hthrow eq_refl) as [e He]. rewrite He. simpl. now eexists.
Qed.

(** X1.  [extractSourcesFromMessage] throws exactly when the results of
    some tool part of the message hold a [null] or [undefined] element;
    otherwise it returns a list. *)
Theorem extractSources_throws_iff : forall message,
  (exists e, extractSourcesFromMessage message = Throw e)
  <-> exists p r, In p message.(parts) /\ In r (visits p) /\ notNullish r = false.
Proof.
  intros message. unfold extractSourcesFromMessage.
  destruct (collectSources_outcome (parts message) []) as [Hok Hthrow].
  destruct (forallb (fun p => forallb notNullish (visits p)) (parts message)) eqn:Hall.
  - destruct (Hok eq_refl) as [out Hout]. rewrite Hout. simpl. split.
    + intros [e He]. discriminate.
    + intros (p & r & Hp & Hr & Hn).
      rewrite forallb_forall in Hall. specialize (Hall p Hp).
      rewrite forallb_forall in Hall. specialize (Hall r Hr). congruence.
  - destruct (Hthrow eq_refl) as [e He]. rewrite He. simpl. split.
    + intros _.
      assert (Hex : exists p, In p (parts message)
                              /\ forallb notNullish (visits p) = false).
      { clear -Hall. induction (parts message) as [|p ps IH]; simpl in Hall;
          [discriminate|].
        apply andb_false_iff in Hall as [H|H].
        - exists p. split; [now left|assumption].
        - destruct (IH H) as (q & Hq & Hf). exists q. split; [now right|assumption]. }
      destruct Hex as (p & Hp & Hf).
      assert (Hr : exists r, In r (visits p) /\ notNullish r = false).
      { clear -Hf. induction (visits p) as [|r rs IH]; simpl in Hf; [discriminate|].
        apply andb_false_iff in Hf as [H|H].
        - exists r. split; [now left|assumption].
        - destruct (IH H) as (q & Hq & Hn). exists q. split; [now right|assumption]. }
      destruct Hr as (r & Hr & Hn). now exists p, r.
    + intros _. now exists e.
Qed.

(** The titles: every source collected has a truthy title. *)
Lemma titleOf_truthy : forall t u, truthy (titleOf t u) = true.
Proof.
  intros t u. unfold titleOf, JS.or.
  destruct (truthy t) eqn:Ht; simpl.
  - now rewrite Ht.
  - destruct (truthy u) eqn:Hu; simpl; [now rewrite Hu|reflexivity].
Qed.


Lemma forEachResult_showable : forall rs sources out,
  Forall showable sources ->
  forEachResult rs sources = Normal out -> Forall showable out.
Proof.
  induction rs as [|r rs IH]; intros sources out Hs H; simpl in H.
  - now inversion H; subst.
  - unfold pushResult in H.
    destruct (getProp r (lit "url")) as [u|e] eqn:Hu; simpl in H; [|discriminate].
    destruct (truthy u) eqn:Ht.
    + destruct (getProp r (lit "title")) as [t|e]; simpl in H; [|discriminate].
      apply IH in H; [assumption|].
      apply Forall_app. split; [assumption|]. constructor; [|constructor].
      split; [apply titleOf_truthy|now left].
    + simpl in H. now apply IH in H.
Qed.

Lemma collectPart_showable : forall p sources out,
  Forall showable sources ->
  collectPart p sources = Normal out -> Forall showable out.
Proof.
  intros p sources out Hs H. unfold collectPart in H.
  set (src := if JS.eqb (type p) (lit "source-url") then _ else _) in H.
  assert (Hsrc : Forall showable src).
  { subst src. destruct (JS.eqb (type p) (lit "source-url")); [|assumption].
    apply Forall_app. split; [assumption|]. constructor; [|constructor].
    split; [apply titleOf_truthy|]. simpl. unfold JS.or.
    destruct (truthy (url p)) eqn:Hu; [now left|now right]. }
  clearbody src.
  destruct (startsWith (lit "tool-") (type p)); [|now inversion H; subst].
  destruct (truthy (output p)); [|now inversion H; subst].
  destruct (getProp (output p) (lit "results")) as [results|e] eqn:Hr; simpl in H;
    [|discriminate].
  assert (Hdirect :
    bind (getProp (output p) (lit "url")) (fun u =>
      if truthy u then
        bind (getProp (output p) (lit "title")) (fun t =>
          Normal (src ++ [mkSource u (titleOf t u)]))
      else Normal src) = Normal out -> Forall showable out).
  { intros Hd.
    destruct (getProp (output p) (lit "url")) as [u|e]; simpl in Hd; [|discriminate].
    destruct (truthy u) eqn:Ht.
    - destruct (getProp (output p) (lit "title")) as [t|e]; simpl in Hd; [|discriminate].
      inversion Hd; subst. apply Forall_app. split; [assumption|].
      constructor; [|constructor]. split; [apply titleOf_truthy|now left].
    - now inversion Hd; subst. }
  destruct results;
    try (now apply (forEachResult_showable _ _ _ Hsrc H));
    destruct (output p); try (now apply Hdirect);
    now apply (forEachResult_showable _ _ _ Hsrc H).
Qed.

Lemma collectSources_showable : forall ps sources out,
  Forall showable sources ->
  collectSources ps sources = Normal out -> Forall showable out.
Proof.
  induction ps as [|p ps IH]; intros sources out Hs H; simpl in H.
  - now inversion H; subst.
  - destruct (collectPart p sources) as [mid|e] eqn:Hp; simpl in H; [|discriminate].
    apply (IH mid); [|assumption]. now apply (collectPart_showable p sources).
Qed.

(** X2.  Every source [extractSourcesFromMessage] returns has a truthy
    title (the given title, else the URL, else "Source"), and its URL is
    truthy or, for a source-url part without URL, the empty string. *)
Theorem extractSources_showable : forall message out,
  extractSourcesFromMessage message = Normal out ->
  Forall showable out.
Proof.
  intros message out H. unfold extractSourcesFromMessage in H.
  destruct (collectSources (parts message) []) as [cited|e] eqn:Hc; simpl in H;
    [|discriminate].
  inversion H; subst.
  assert (Hcited := collectSources_showable _ _ _ (Forall_nil _) Hc).
  rewrite Forall_forall in *. intros s Hs. apply Hcited.
  now apply dedupe_incl in Hs.
Qed.

Lemma extractSources_showable_witness :
  Forall showable
    [mkSource (JStr (lit "https://a.example")) (JStr (lit "First"));
     mkSource (JStr (lit "https://b.example")) (JStr (lit "https://b.example"))].
Proof.
  apply (extractSources_showable twoOutputs). reflexivity.
Defined.

(** ** The parsing effect: what a run does to the state *)

Lemma applyUpdate_grows : forall now st u,
  sideQuestCount (applyUpdate now st u)
  = sideQuestCount st + sideQuestIncrement [u]
  /\ exists added,
       searchLog (applyUpdate now st u) = searchLog st ++ added
       /\ Forall (fun e => timestamp e = now) added.
Proof.
  intros now st [n|q r|q]; simpl.
  - split; [lia|]. exists []. now rewrite app_nil_r.
  - destruct (existsb _ (searchLog st)); simpl; (split; [lia|]).
    + exists []. now rewrite app_nil_r.
    + eexists. split; [reflexivity|]. now repeat constructor.
  - destruct (existsb _ (searchLog st)); simpl; (split; [lia|]).
    + exists []. now rewrite app_nil_r.
    + eexists. split; [reflexivity|]. now repeat constructor.
Qed.

Lemma sideQuestIncrement_cons : forall u us,
  sideQuestIncrement (u :: us) = sideQuestIncrement [u] + sideQuestIncrement us.
Proof.
  intros [n|q r|q] us; simpl; lia.
Qed.

Lemma applyUpdates_grow : forall now us st,
  sideQuestCount (fold_left (applyUpdate now) us st)
  = sideQuestCount st + sideQuestIncrement us
  /\ exists added,
       searchLog (fold_left (applyUpdate now) us st) = searchLog st ++ added
       /\ Forall (fun e => timestamp e = now) added.
Proof.
  intros now. induction us as [|u us IH]; intros st.
  - simpl. split; [lia|]. exists []. now rewrite app_nil_r.
  - cbn [fold_left]. destruct (IH (applyUpdate now st u)) as (Hc & added & Hl & Ht).
    destruct (applyUpdate_grows now st u) as (Hc1 & added1 & Hl1 & Ht1).
    split.
    + rewrite Hc, Hc1, (sideQuestIncrement_cons u us). lia.
    + exists (added1 ++ added). rewrite Hl, Hl1, app_assoc.
      split; [reflexivity|]. apply Forall_app. now split.
Qed.

(** X3.  A run of the effect never removes or rewrites a search-log
    entry: the log after the run is the log before it followed by the
    entries added; and the side-quest counter never goes down. *)
Theorem effect_only_appends : forall toLowerCase now st messages,
  (exists added,
      searchLog (runEffect toLowerCase now st messages) = searchLog st ++ added)
  /\ sideQuestCount st <= sideQuestCount (runEffect toLowerCase now st messages).
Proof.
  intros f now st messages. unfold runEffect.
  destruct (applyUpdates_grow now (effectUpdates f [] messages) st)
    as (Hc & added & Hl & _).
  split; [now exists added|lia].
Qed.

(** X4.  What a run adds to the side-quest counter depends on the
    messages only, not on what has been counted before: a second run over
    the same messages adds the same amount again. *)
Theorem effect_counts_again : forall toLowerCase now now' st messages,
  sideQuestCount (runEffect toLowerCase now st messages)
  = sideQuestCount st + sideQuestIncrement (effectUpdates toLowerCase [] messages)
  /\ sideQuestCount
       (runEffect toLowerCase now' (runEffect toLowerCase now st messages) messages)
     = sideQuestCount st
       + 2 * sideQuestIncrement (effectUpdates toLowerCase [] messages).
Proof.
  intros f now now' st messages. unfold runEffect.
  destruct (applyUpdates_grow now (effectUpdates f [] messages) st) as (Hc & _).
  destruct (applyUpdates_grow now' (effectUpdates f [] messages)
              (fold_left (applyUpdate now) (effectUpdates f [] messages) st))
    as (Hc' & _).
  split; [assumption|]. rewrite Hc', Hc. lia.
Qed.

(** ** The parsing effect: which messages it reads *)

Lemma effectUpdates_assistant_only : forall f messages processed,
  effectUpdates f processed messages
  = effectUpdates f processed (filter isAssistant messages).
Proof.
  intros f. induction messages as [|m rest IH]; intros processed; simpl;
    [reflexivity|].
  unfold isAssistant at 1. destruct (role m) eqn:Hr; simpl.
  - apply IH.
  - rewrite Hr. destruct (existsb (JS.eqb (id m)) processed); [apply IH|].
    f_equal. apply IH.
Qed.

Lemma effectUpdates_app : forall f a b processed,
  effectUpdates f processed (a ++ b)
  = effectUpdates f processed a ++ effectUpdates f (processedAfter processed a) b.
Proof.
  intros f. induction a as [|m a IH]; intros b processed; simpl; [reflexivity|].
  unfold isAssistant. destruct (role m); simpl; [apply IH|].
  destruct (existsb (JS.eqb (id m)) processed); simpl; [apply IH|].
  rewrite <- app_assoc. f_equal. apply IH.
Qed.

Lemma processedAfter_keeps : forall messages processed i,
  existsb (JS.eqb i) processed = true ->
  existsb (JS.eqb i) (processedAfter processed messages) = true.
Proof.
  induction messages as [|m rest IH]; intros processed i H; simpl; [assumption|].
  destruct (isAssistant m && negb (existsb (JS.eqb (id m)) processed));
    apply IH; [|assumption].
  simpl. now rewrite H, orb_true_r.
Qed.

Lemma processedAfter_has : forall messages processed m,
  In m messages -> isAssistant m = true ->
  existsb (JS.eqb (id m)) (processedAfter processed messages) = true.
Proof.
  induction messages as [|x rest IH]; intros processed m Hin Ha; [contradiction|].
  simpl. destruct Hin as [Heq|Hin].
  - subst x. rewrite Ha. simpl.
    destruct (existsb (JS.eqb (id m)) processed) eqn:He; simpl.
    + now apply processedAfter_keeps.
    + apply processedAfter_keeps. simpl. now rewrite eqb_refl.
  - destruct (isAssistant x && negb (existsb (JS.eqb (id x)) processed));
      now apply IH.
Qed.

Lemma effectUpdates_processed : forall f messages processed,
  (forall m, In m messages -> isAssistant m = true ->
             existsb (JS.eqb (id m)) processed = true) ->
  effectUpdates f processed messages = [].
Proof.
  intros f. induction messages as [|m rest IH]; intros processed H; simpl;
    [reflexivity|].
  assert (Hrest : forall x, In x rest -> isAssistant x = true ->
                            existsb (JS.eqb (id x)) processed = true)
    by (intros x Hx; apply H; now right).
  specialize (H m (or_introl eq_refl)). unfold isAssistant in H.
  destruct (role m); [now apply IH|].
  rewrite (H eq_refl). now apply IH.
Qed.

(** X5.  A run of the effect reads assistant messages only, and reads a
    message id once: messages of the user change nothing, and a message
    list that shows the same messages a second time queues the updates of
    the first showing only. *)
Theorem effect_reads_each_assistant_message_once :
  forall toLowerCase messages,
    effectUpdates toLowerCase [] messages
    = effectUpdates toLowerCase [] (filter isAssistant messages)
    /\ effectUpdates toLowerCase [] (messages ++ messages)
       = effectUpdates toLowerCase [] messages.
Proof.
  intros f messages. split; [apply effectUpdates_assistant_only|].
  rewrite effectUpdates_app.
  rewrite (effectUpdates_processed f messages (processedAfter [] messages)).
  - apply app_nil_r.
  - intros m Hin Ha. now apply processedAfter_has.
Qed.

(** ** The search log without query-only lines *)

Lemma applyUpdate_keeps_NoDup : forall now st u,
  isQueryOnly u = false ->
  NoDup (logKeys (searchLog st)) ->
  NoDup (logKeys (searchLog (applyUpdate now st u))).
Proof.
  intros now st [n|q r|q] Hq Hnd; try discriminate.
  - assumption.
  - now apply LogSearch_keeps_NoDup.
Qed.

(** X6.  As long as a run queues no update of a bullet without reason,
    it keeps the search log free of repeated (query, reason) pairs: the
    tavilySearch parts and the "query - reason" bullets never log a pair
    twice, however often the effect runs. *)
Theorem effect_keeps_log_unique : forall toLowerCase now st messages,
  forallb (fun u => negb (isQueryOnly u)) (effectUpdates toLowerCase [] messages) = true ->
  NoDup (logKeys (searchLog st)) ->
  NoDup (logKeys (searchLog (runEffect toLowerCase now st messages))).
Proof.
  intros f now st messages Hall. unfold runEffect.
  revert st. induction (effectUpdates f [] messages) as [|u us IH]; intros st Hnd;
    simpl; [assumption|].
  simpl in Hall. apply andb_true_iff in Hall as [Hu Hus].
  apply (IH Hus). apply applyUpdate_keeps_NoDup; [|assumption].
  now destruct (isQueryOnly u).
Qed.

Lemma effect_keeps_log_unique_witness :
  NoDup (logKeys (searchLog
           (runEffect asciiLower 1
              (runEffect asciiLower 0 (mkState 0 []) [searchWithReason])
              [searchWithReason])))
  /\ logKeys (searchLog
        (runEffect asciiLower 1
           (runEffect asciiLower 0 (mkState 0 []) [searchWithReason])
           [searchWithReason]))
     = [(lit "capital of Lebanon", lit "main question")].
Proof.
  split; [|vm_compute; reflexivity].
  apply (effect_keeps_log_unique asciiLower 1
           (runEffect asciiLower 0 (mkState 0 []) [searchWithReason])
           [searchWithReason]).
  - vm_compute. reflexivity.
  - apply (effect_keeps_log_unique asciiLower 0 (mkState 0 []) [searchWithReason]).
    + vm_compute. reflexivity.
    + constructor.
Defined.

(** ** The search section of a text *)

Lemma trimStart_head : forall s, headNotSpace (trimStart s).
Proof.
  induction s as [|c s IH]; simpl; [exact I|].
  destruct (isSpace c) eqn:Hc; [assumption|]. simpl. assumption.
Qed.

Lemma trimStart_id : forall s, headNotSpace s -> trimStart s = s.
Proof.
  intros [|c s] H; simpl in *; [reflexivity|]. now rewrite H.
Qed.

Lemma trimStart_suffix : forall s, exists sp, s = sp ++ trimStart s.
Proof.
  induction s as [|c s [sp IH]]; simpl.
  - now exists [].
  - destruct (isSpace c).
    + exists (c :: sp). simpl. now rewrite <- IH.
    + now exists [].
Qed.

Lemma trimEnd_prefix : forall s, exists sp, s = trimEnd s ++ sp.
Proof.
  intros s. unfold trimEnd. destruct (trimStart_suffix (rev s)) as [sp Hsp].
  exists (rev sp). rewrite <- rev_app_distr, <- Hsp. now rewrite rev_involutive.
Qed.

Lemma trimEnd_head : forall s, headNotSpace s -> headNotSpace (trimEnd s).
Proof.
  intros s H. destruct (trimEnd_prefix s) as [sp Hsp].
  destruct (trimEnd s) as [|c t]; [exact I|].
  rewrite Hsp in H. exact H.
Qed.

Lemma trim_idempotent : forall s, trim (trim s) = trim s.
Proof.
  intros s. unfold trim at 1.
  assert (Hh : headNotSpace (trim s))
    by (unfold trim; apply trimEnd_head, trimStart_head).
  rewrite (trimStart_id _ Hh). unfold trimEnd at 1.
  assert (Hr : headNotSpace (rev (trim s))).
  { unfold trim, trimEnd. rewrite rev_involutive. apply trimStart_head. }
  rewrite (trimStart_id _ Hr). apply rev_involutive.
Qed.

Lemma trim_subset : forall s c, In c (trim s) -> In c s.
Proof.
  intros s c H. unfold trim in H.
  destruct (trimEnd_prefix (trimStart s)) as [sp1 H1].
  destruct (trimStart_suffix s) as [sp2 H2].
  rewrite H2. apply in_or_app. right. rewrite H1. apply in_or_app. now left.
Qed.

Lemma splitOn_nonempty : forall sep s, splitOn sep s <> [].
Proof.
  intros sep [|c s]; simpl; [discriminate|].
  destruct (sep c); [discriminate|]. now destruct (splitOn sep s).
Qed.

Lemma splitOn_single : forall sep s w, splitOn sep s = [w] -> w = s.
Proof.
  intros sep. induction s as [|c s IH]; intros w H; simpl in H.
  - now inversion H.
  - destruct (sep c).
    + inversion H as [[Hw Hs]]. now apply splitOn_nonempty in Hs.
    + destruct (splitOn sep s) as [|x xs] eqn:Hx; [now apply splitOn_nonempty in Hx|].
      inversion H; subst. f_equal. now apply IH.
Qed.

Lemma splitOn_no_separator : forall sep s,
  Forall (fun w => forallb (fun c => negb (sep c)) w = true) (splitOn sep s).
Proof.
  intros sep. induction s as [|c s IH]; simpl.
  - now repeat constructor.
  - destruct (sep c) eqn:Hc.
    + constructor; [reflexivity|assumption].
    + destruct (splitOn sep s) as [|x xs]; [now repeat constructor; simpl; rewrite Hc|].
      inversion IH; subst. constructor; [|assumption]. simpl. now rewrite Hc.
Qed.

Lemma bulletLines_trimmed : forall block l,
  In l (bulletLines block) -> l <> [] /\ trim l = l.
Proof.
  intros block l H. unfold bulletLines in H.
  apply filter_In in H as [H Hne].
  apply in_map_iff in H as (raw & Heq & _). subst l. split.
  - intros Hnil. rewrite Hnil in Hne. discriminate.
  - apply trim_idempotent.
Qed.

(** X7.  Every bullet line of a search section queues exactly one update
    of the search log, so a section queues as many updates as it has
    bullet lines. *)
Theorem search_section_one_update_per_bullet : forall block,
  (forall l, In l (bulletLines block) ->
     exists u, lineUpdates l = [u] /\ isLogUpdate u = true)
  /\ length (flat_map lineUpdates (bulletLines block)) = length (bulletLines block).
Proof.
  intros block.
  assert (Hone : forall l, In l (bulletLines block) ->
                   exists u, lineUpdates l = [u] /\ isLogUpdate u = true).
  { intros l Hl. destruct (bulletLines_trimmed _ _ Hl) as [Hne Htrim].
    unfold lineUpdates.
    destruct (splitOn isColonDash l) as [|w ws] eqn:Hs;
      [now apply splitOn_nonempty in Hs|].
    destruct ws as [|w' ws].
    - apply splitOn_single in Hs. subst w. simpl. rewrite Htrim.
      destruct l; [congruence|]. simpl. now eexists.
    - simpl. now eexists. }
  split; [assumption|].
  induction (bulletLines block) as [|l ls IH]; simpl; [reflexivity|].
  destruct (Hone l (or_introl eq_refl)) as (u & Hu & _).
  rewrite length_app, Hu. simpl. f_equal. apply IH.
  intros x Hx. apply Hone. now right.
Qed.

Lemma join_noColon : forall ws,
  Forall (fun w => noColon w = true) ws -> noColon (join (lit " - ") ws) = true.
Proof.
  induction ws as [|w ws IH]; intros H; [reflexivity|].
  inversion H as [|? ? Hw Hws]; subst.
  destruct ws as [|w' ws']; [exact Hw|].
  specialize (IH Hws). cbn [join]. unfold noColon in *.
  rewrite forallb_app, forallb_app.
  apply andb_true_iff. split; [exact Hw|].
  apply andb_true_iff. split; [reflexivity|exact IH].
Qed.

Lemma trim_forallb : forall (P : char -> bool) w,
  forallb P w = true -> forallb P (trim w) = true.
Proof.
  intros P w H. rewrite forallb_forall in *. intros c Hc.
  apply H. now apply trim_subset.
Qed.

(** X8.  The query a text bullet logs is cut at the first colon or dash
    of the line: it holds neither and has no white space around it; and
    the reason it logs holds no colon (the pieces after the first are
    joined by " - "). *)
Theorem logged_query_has_no_separator : forall line u,
  In u (lineUpdates line) ->
  (forall q, loggedQuery u = Some q -> noColonDash q = true /\ trim q = q)
  /\ (forall r, loggedReason u = Some r -> noColon r = true).
Proof.
  intros line u Hu. unfold lineUpdates in Hu.
  assert (Hsep := splitOn_no_separator isColonDash line).
  destruct (splitOn isColonDash line) as [|w ws] eqn:Hs;
    [now apply splitOn_nonempty in Hs|].
  inversion Hsep as [|? ? Hw Hws]; subst.
  assert (Hq : noColonDash (trim w) = true /\ trim (trim w) = trim w).
  { split; [|apply trim_idempotent]. unfold noColonDash. now apply trim_forallb. }
  destruct ws as [|w' ws'].
  - simpl in Hu. destruct (isEmpty (trim w)); simpl in Hu; [contradiction|].
    destruct Hu as [Hu|[]]. subst u. simpl. split.
    + intros q Hq'. now inversion Hq'; subst.
    + discriminate.
  - cbn [map length Nat.leb nth tl In] in Hu. destruct Hu as [Hu|[]]. subst u.
    cbn [loggedQuery loggedReason]. split.
    + intros q Hq'. now inversion Hq'; subst.
    + intros r Hr. injection Hr as Hr. rewrite <- Hr.
      change (noColon (join (lit " - ") (map trim (w' :: ws'))) = true).
      apply join_noColon. apply Forall_forall. intros x Hx.
      apply in_map_iff in Hx as (y & Hy & Hin). subst x.
      rewrite Forall_forall in Hws. specialize (Hws y Hin).
      unfold noColon. apply trim_forallb.
      rewrite forallb_forall in *. intros c Hc. specialize (Hws c Hc).
      unfold isColonDash in Hws. apply negb_true_iff in Hws.
      apply orb_false_iff in Hws as [Hcolon _]. now rewrite Hcolon.
Qed.

Lemma logged_query_has_no_separator_witness :
  (forall q, loggedQuery (LogSearch (lit "https") (lit "//a.example"))
             = Some q -> noColonDash q = true /\ trim q = q)
  /\ (forall r, loggedReason (LogSearch (lit "https") (lit "//a.example"))
                = Some r -> noColon r = true).
Proof.
  apply (logged_query_has_no_separator (lit "https://a.example")).
  vm_compute. now left.
Defined.

Section GroupFacts.
Variable stop : jsstring -> bool.

(** The lazy group ends at the first place where the lookahead holds. *)
Lemma lazyStar_first : forall s g,
  lazyStar stop s = Some g ->
  forall k, k < length g -> stop (skipn k s) = false.
Proof.
  induction s as [|c s IH]; intros g H k Hk; simpl in H.
  - destruct (stop []); inversion H; subst; simpl in Hk; lia.
  - destruct (stop (c :: s)) eqn:Hc.
    + inversion H; subst. simpl in Hk. lia.
    + destruct (lazyStar stop s) as [g'|] eqn:Hg; [|discriminate].
      inversion H; subst. destruct k as [|k]; [exact Hc|].
      simpl in *. apply (IH g' eq_refl). lia.
Qed.

Lemma lazyPlus_shape : forall s g,
  lazyPlus stop s = Some g ->
  exists c g' rest, g = c :: g' /\ lazyStar stop rest = Some g'.
Proof.
  intros [|c s] g H; simpl in H; [discriminate|].
  destruct (lazyStar stop s) as [g'|] eqn:Hg; [|discriminate].
  inversion H; subst. now exists c, g', s.
Qed.

Lemma spacesThen_shape : forall s g,
  spacesThen stop s = Some g ->
  exists c g' rest, g = c :: g' /\ lazyStar stop rest = Some g'.
Proof.
  induction s as [|c s IH]; intros g H; [discriminate|].
  cbn [spacesThen] in H.
  destruct (isSpace c); [|now apply lazyPlus_shape in H].
  destruct (spacesThen stop s) as [g1|] eqn:Hg; [|now apply lazyPlus_shape in H].
  inversion H; subst. now apply IH.
Qed.

Lemma optThen_shape : forall s g,
  optThen stop s = Some g ->
  exists c g' rest, g = c :: g' /\ lazyStar stop rest = Some g'.
Proof.
  intros [|c s] g H; unfold optThen in H; [discriminate|].
  destruct (isColonDash c); [|now apply spacesThen_shape in H].
  destruct (spacesThen stop s) as [g1|] eqn:Hg; [|now apply spacesThen_shape in H].
  inversion H; subst. now apply spacesThen_shape in Hg.
Qed.

Lemma matchSection_shape : forall header s g,
  matchSection stop header s = Some g ->
  exists c g' rest, g = c :: g' /\ lazyStar stop rest = Some g'.
Proof.
  intros header. induction s as [|c s IH]; intros g H; cbn [matchSection] in H.
  - destruct (startsWith header []); [|discriminate].
    destruct (optThen stop (skipn (length header) [])) eqn:Ho; [|discriminate].
    inversion H; subst. now apply optThen_shape in Ho.
  - destruct (startsWith header (c :: s)); [|now apply IH].
    destruct (optThen stop (skipn (length header) (c :: s))) eqn:Ho; [|now apply IH].
    inversion H; subst. now apply optThen_shape in Ho.
Qed.
End GroupFacts.

Lemma startsWith_app : forall p a b,
  startsWith p a = true -> startsWith p (a ++ b) = true.
Proof.
  induction p as [|x p IH]; intros [|y a] b H; simpl in *; try reflexivity;
    try discriminate.
  apply andb_true_iff in H as [Hx Hr]. now rewrite Hx, (IH a b Hr).
Qed.

Lemma startsWith_length : forall p s,
  startsWith p s = true -> length p <= length s.
Proof.
  induction p as [|x p IH]; intros [|y s] H; simpl in *; try lia; try discriminate.
  apply andb_true_iff in H as [_ Hr]. apply IH in Hr. lia.
Qed.

(** What ends the group does not occur inside it. *)
Lemma lazyStar_excludes : forall (stop : jsstring -> bool) p s g,
  p <> [] ->
  (forall t, startsWith p t = true -> stop t = true) ->
  lazyStar stop s = Some g -> includes p g = false.
Proof.
  intros stop p s g Hp Hstop Hg.
  destruct (includes p g) eqn:Hi; [|reflexivity].
  apply includes_at in Hi as [k Hk].
  destruct (lazyStar_prefix stop s g Hg) as [post Hpost].
  assert (Hlen : k < length g).
  { apply startsWith_length in Hk. rewrite length_skipn in Hk.
    destruct p; [congruence|]. simpl in Hk. lia. }
  assert (Hfalse := lazyStar_first stop s g Hg k Hlen).
  rewrite Hpost, skipn_app in Hfalse.
  rewrite (Hstop _ (startsWith_app _ _ _ Hk)) in Hfalse. discriminate.
Qed.

(** X9.  The block captured after [Searches I ran] is not empty and ends
    before the first blank line: past its first code unit it holds no two
    line feeds in a row, so bullets after a blank line are not read.  The
    block after [Probably irrelevant but interesting] in addition ends
    before a line that starts with [Searches]. *)
Theorem section_ends_at_blank_line : forall text block,
  (matchSection searchStop (lit "Searches I ran") text = Some block ->
     exists c rest, block = c :: rest /\ includes [LF; LF] rest = false)
  /\ (matchSection sideQuestStop (lit "Probably irrelevant but interesting") text
      = Some block ->
      exists c rest, block = c :: rest
                     /\ includes [LF; LF] rest = false
                     /\ includes (LF :: lit "Searches") rest = false).
Proof.
  intros text block. split; intros H.
  - destruct (matchSection_shape _ _ _ _ H) as (c & g' & rest & Hb & Hg).
    exists c, g'. split; [assumption|].
    apply (lazyStar_excludes searchStop [LF; LF] rest g'); [discriminate| |assumption].
    intros t Ht. unfold searchStop. now rewrite Ht.
  - destruct (matchSection_shape _ _ _ _ H) as (c & g' & rest & Hb & Hg).
    exists c, g'. split; [assumption|]. split.
    + apply (lazyStar_excludes sideQuestStop [LF; LF] rest g');
        [discriminate| |assumption].
      intros t Ht. unfold sideQuestStop. now rewrite Ht.
    + apply (lazyStar_excludes sideQuestStop (LF :: lit "Searches") rest g');
        [discriminate| |assumption].
      intros t Ht. unfold sideQuestStop. now rewrite Ht, orb_true_r.
Qed.

Lemma section_ends_at_blank_line_witness :
  exists c rest,
    lit "- capital of Lebanon" = c :: rest /\ includes [LF; LF] rest = false.
Proof.
  apply (proj1 (section_ends_at_blank_line
                  (searchesSection ++ [LF; LF] ++ lit "- not read")
                  (lit "- capital of Lebanon"))).
  vm_compute. reflexivity.
Defined.

(** ** The loader *)

Lemma filter_inFlight : forall ps,
  filter inFlight ps = filter isRunning (filter Loader.isToolPart ps).
Proof.
  induction ps as [|p ps IH]; [reflexivity|]. cbn [filter].
  assert (Hp : inFlight p = Loader.isToolPart p && isRunning p).
  { unfold inFlight, Loader.isToolPart, isRunning. f_equal. apply orb_comm. }
  rewrite Hp, IH. destruct (Loader.isToolPart p); [|reflexivity].
  cbn [andb filter]. reflexivity.
Qed.

Lemma activity_of_lastParts : forall messages,
  getCurrentToolActivity messages
  = map (fun p => displayName (toolNameOf p))
      (filter isRunning (filter Loader.isToolPart (lastParts messages))).
Proof.
  intros messages. unfold getCurrentToolActivity, lastParts.
  rewrite nth_error_last.
  destruct messages as [|m ms]; [reflexivity|]. cbn [length].
  destruct (rev (m :: ms)) as [|x r]; [reflexivity|].
  now rewrite pushActivity_fold, filter_inFlight.
Qed.

Lemma loader_toolParts_of_lastParts : forall messages,
  (if 0 <? length messages then
     match nth_error messages (length messages - 1) with
     | Some m => filter Loader.isToolPart (parts m)
     | None => []
     end
   else [])
  = filter Loader.isToolPart (lastParts messages).
Proof.
  intros messages. unfold lastParts. rewrite nth_error_last.
  destruct messages as [|m ms]; [reflexivity|].
  cbn [length Nat.ltb Nat.leb]. now destruct (rev (m :: ms)).
Qed.

Lemma stateLabel_running : forall p,
  JS.eqb (Loader.stateLabel p) (lit "Running") = isRunning p.
Proof.
  intros p. unfold Loader.stateLabel, isRunning.
  destruct (stateIs p "input-available" || stateIs p "input-streaming");
    [reflexivity|].
  destruct (stateIs p "output-available"); [reflexivity|].
  now destruct (stateIs p "output-error").
Qed.

(** X10.  The loader is shown exactly while a turn is submitted or
    streaming.  Its list of tool parts are the tool parts of the most
    recent message; its activities are the labels of those among them
    that are running, one each, and its title their list joined by
    commas; with none running it shows the one activity
    "Starting research..." under the title "Researching...".  The items
    of the task list labelled Running are as many as the activities. *)
Theorem loader_shows_running_tools : forall status messages,
  (Loader.loaderContent status messages = None <-> Loader.isLoading status = false)
  /\ forall lc, Loader.loaderContent status messages = Some lc ->
       Loader.loader_toolParts lc = filter Loader.isToolPart (lastParts messages)
       /\ Loader.loader_activities lc <> []
       /\ (filter isRunning (Loader.loader_toolParts lc) = [] ->
             Loader.loader_title lc = lit "Researching..."
             /\ Loader.loader_activities lc = [lit "Starting research..."])
       /\ (filter isRunning (Loader.loader_toolParts lc) <> [] ->
             Loader.loader_activities lc
             = map (fun p => displayName (toolNameOf p))
                 (filter isRunning (Loader.loader_toolParts lc))
             /\ Loader.loader_title lc = join (lit ", ") (Loader.loader_activities lc))
       /\ length (filter (fun p => JS.eqb (Loader.stateLabel p) (lit "Running"))
                    (Loader.loader_toolParts lc))
          = length (getCurrentToolActivity messages).
Proof.
  intros status messages. unfold Loader.loaderContent.
  rewrite loader_toolParts_of_lastParts, activity_of_lastParts.
  set (tools := filter Loader.isToolPart (lastParts messages)).
  assert (Hcount :
    length (filter (fun p => JS.eqb (Loader.stateLabel p) (lit "Running")) tools)
    = length (map (fun p => displayName (toolNameOf p)) (filter isRunning tools))).
  { rewrite length_map. f_equal. apply filter_ext. apply stateLabel_running. }
  split.
  - destruct (Loader.isLoading status); simpl; split; intros H;
      try reflexivity; discriminate.
  - intros lc H. destruct (Loader.isLoading status); simpl in H; [|discriminate].
    inversion H; subst lc; clear H. cbn [Loader.loader_toolParts
      Loader.loader_activities Loader.loader_title].
    split; [reflexivity|].
    destruct (filter isRunning tools) as [|p ps] eqn:Hrun; simpl.
    + split; [discriminate|]. split; [now split|]. split; [congruence|exact Hcount].
    + split; [discriminate|]. split; [discriminate|]. split; [now split|exact Hcount].
Qed.

Lemma loader_shows_running_tools_witness :
  exists lc,
    Loader.loaderContent Loader.streaming searching = Some lc
    /\ Loader.loader_title lc = lit "Searching web"
    /\ Loader.loader_activities lc = [lit "Searching web"]
    /\ map Loader.taskItem (Loader.loader_toolParts lc)
       = [lit "Fact-checking - Completed"; lit "Web search - Running"].
Proof.
  eexists. split; [reflexivity|].
  destruct (proj2 (loader_shows_running_tools Loader.streaming searching) _ eq_refl)
    as (_ & _ & _ & Hrun & _).
  split; [|split; reflexivity].
  apply Hrun. vm_compute. discriminate.
Defined.

(** ** The most recent tool part *)

Lemma lastToolIndex_snoc : forall ps x,
  Loader.lastToolIndex (ps ++ [x])
  = if Loader.isToolPart x then Some (length ps) else Loader.lastToolIndex ps.
Proof.
  intros ps x. unfold Loader.lastToolIndex.
  rewrite rev_app_distr, length_app. simpl.
  replace (length ps + 1 - 1) with (length ps) by lia.
  destruct (Loader.isToolPart x); reflexivity.
Qed.

Lemma lastToolIndex_spec : forall ps,
  match Loader.lastToolIndex ps with
  | None => forallb (fun p => negb (Loader.isToolPart p)) ps = true
  | Some j =>
      exists p, nth_error ps j = Some p /\ Loader.isToolPart p = true
                /\ forallb (fun q => negb (Loader.isToolPart q)) (skipn (S j) ps) = true
  end.
Proof.
  induction ps as [|x ps IH] using rev_ind; [reflexivity|].
  rewrite lastToolIndex_snoc. destruct (Loader.isToolPart x) eqn:Hx.
  - exists x. split; [|split; [assumption|]].
    + rewrite nth_error_app2 by lia. now rewrite Nat.sub_diag.
    + rewrite skipn_all2; [reflexivity|]. rewrite length_app. simpl. lia.
  - destruct (Loader.lastToolIndex ps) as [j|].
    + destruct IH as (p & Hp & Ht & Hafter). exists p.
      assert (Hj : j < length ps) by (apply nth_error_Some; congruence).
      rewrite nth_error_app1 by assumption. split; [assumption|].
      split; [assumption|].
      rewrite skipn_app, forallb_app, Hafter.
      replace (S j - length ps) with 0 by lia. simpl. now rewrite Hx.
    + rewrite forallb_app, IH. simpl. now rewrite Hx.
Qed.

Lemma hasToolPart_false : forall m,
  hasToolPart m = false <-> forallb (fun p => negb (Loader.isToolPart p)) (parts m) = true.
Proof.
  intros m. unfold hasToolPart.
  induction (parts m) as [|p ps IH]; simpl; [now split|].
  destruct (Loader.isToolPart p); simpl; [split; discriminate|apply IH].
Qed.

Lemma scanMessages_snoc_spec : forall messages,
  match Loader.mostRecentToolPart messages with
  | None => forallb (fun m => negb (hasToolPart m)) messages = true
  | Some (mid, j) =>
      exists before m after p,
        messages = before ++ m :: after
        /\ id m = mid
        /\ nth_error (parts m) j = Some p
        /\ Loader.isToolPart p = true
        /\ forallb (fun q => negb (Loader.isToolPart q)) (skipn (S j) (parts m)) = true
        /\ forallb (fun x => negb (hasToolPart x)) after = true
  end.
Proof.
  unfold Loader.mostRecentToolPart.
  induction messages as [|x ms IH] using rev_ind; [reflexivity|].
  rewrite rev_app_distr. simpl.
  assert (Hx := lastToolIndex_spec (parts x)).
  destruct (Loader.lastToolIndex (parts x)) as [j|].
  - destruct Hx as (p & Hp & Ht & Hafter).
    exists ms, x, [], p. now repeat split.
  - apply hasToolPart_false in Hx.
    destruct (Loader.scanMessages (rev ms)) as [[mid j]|].
    + destruct IH as (before & m & after & p & Hm & Hid & Hp & Ht & Ha & Hafter).
      exists before, m, (after ++ [x]), p. subst ms.
      rewrite <- app_assoc. simpl. repeat split; try assumption.
      rewrite forallb_app, Hafter. simpl. now rewrite Hx.
    + rewrite forallb_app, IH. simpl. now rewrite Hx.
Qed.

(** X11.  [mostRecentToolPart] is [null] exactly when no message has a
    tool part; otherwise it names the last message that has one and the
    index of that message's last tool part: no later part of the message
    and no later message holds a tool part. *)
Theorem mostRecentToolPart_is_last : forall messages,
  (Loader.mostRecentToolPart messages = None
   <-> forallb (fun m => negb (hasToolPart m)) messages = true)
  /\ forall mid j, Loader.mostRecentToolPart messages = Some (mid, j) ->
       exists before m after p,
         messages = before ++ m :: after
         /\ id m = mid
         /\ nth_error (parts m) j = Some p
         /\ Loader.isToolPart p = true
         /\ forallb (fun q => negb (Loader.isToolPart q)) (skipn (S j) (parts m)) = true
         /\ forallb (fun x => negb (hasToolPart x)) after = true.
Proof.
  intros messages. assert (H := scanMessages_snoc_spec messages).
  destruct (Loader.mostRecentToolPart messages) as [[mid j]|]; split.
  - split; [discriminate|]. intros Hall.
    destruct H as (before & m & after & p & Hm & _ & Hp & Ht & _).
    subst messages. rewrite forallb_app in Hall.
    apply andb_true_iff in Hall as [_ Hall]. simpl in Hall.
    apply andb_true_iff in Hall as [Hm _]. apply negb_true_iff in Hm.
    apply hasToolPart_false in Hm.
    apply nth_error_In in Hp. rewrite forallb_forall in Hm.
    specialize (Hm p Hp). rewrite Ht in Hm. discriminate.
  - intros mid' j' Heq. inversion Heq; subst. exact H.
  - now split.
  - discriminate.
Qed.

Lemma mostRecentToolPart_is_last_witness :
  exists before m after p,
    searching = before ++ m :: after
    /\ id m = lit "a1"
    /\ nth_error (parts m) 1 = Some p
    /\ Loader.isToolPart p = true
    /\ forallb (fun q => negb (Loader.isToolPart q)) (skipn 2 (parts m)) = true
    /\ forallb (fun x => negb (hasToolPart x)) after = true.
Proof.
  apply (proj2 (mostRecentToolPart_is_last searching) (lit "a1") 1).
  reflexivity.
Defined.

(** ** The sources of a rendered message *)

Lemma flat_map_sources : forall (sources : list SourceInfo) show ps,
  flat_map (fun part : Page.Part =>
              if JS.eqb (type part) (lit "text") && show then [sources] else []) ps
  = if show then repeat sources (length (filter isTextPart ps)) else [].
Proof.
  intros sources show. induction ps as [|p ps IH]; simpl.
  - now destruct show.
  - rewrite IH. unfold isTextPart. destruct (JS.eqb (type p) (lit "text"));
      destruct show; reflexivity.
Qed.

Lemma existsb_text : forall ps,
  existsb (fun p : Page.Part => JS.eqb (type p) (lit "text")) ps
  = negb (length (filter isTextPart ps) =? 0).
Proof.
  unfold isTextPart. induction ps as [|p ps IH]; [reflexivity|].
  cbn [existsb filter]. destruct (JS.eqb (type p) (lit "text")); [reflexivity|].
  apply IH.
Qed.

(** X12.  Sources are rendered for assistant messages with at least one
    extracted source, and for no other message: under every text part,
    or once after the parts when the message has no text part; every
    [Sources] element lists the whole deduplicated list of its message. *)
Theorem sources_rendered_for_assistant : forall message blocks,
  Loader.renderedSources message = Normal blocks ->
  exists sources,
    extractSourcesFromMessage message = Normal sources
    /\ Forall (fun b => b = sources) blocks
    /\ (role message = user -> blocks = [])
    /\ (sources = [] -> blocks = [])
    /\ (role message = assistant -> sources <> [] ->
          length blocks = Nat.max 1 (length (filter isTextPart (parts message)))).
Proof.
  intros message blocks H. unfold Loader.renderedSources in H.
  destruct (extractSourcesFromMessage message) as [sources|e]; simpl in H;
    [|discriminate].
  exists sources. split; [reflexivity|].
  rewrite flat_map_sources, existsb_text, negb_involutive in H.
  set (n := length (filter isTextPart (parts message))) in *.
  destruct (role message) eqn:Hr.
  - simpl in H. inversion H; subst blocks.
    split; [constructor|]. split; [reflexivity|]. split; [reflexivity|discriminate].
  - destruct sources as [|s0 ss].
    + simpl in H. inversion H; subst blocks.
      split; [constructor|]. split; [reflexivity|]. split; [reflexivity|congruence].
    + cbn [length Nat.ltb Nat.leb andb] in H. inversion H; subst blocks; clear H.
      split.
      * apply Forall_app. split.
        -- apply Forall_forall. intros b Hin. now apply repeat_spec in Hin.
        -- destruct (n =? 0); now repeat constructor.
      * split; [discriminate|]. split; [discriminate|].
        intros _ _. rewrite length_app, repeat_length.
        destruct (n =? 0) eqn:Hn; cbn [length].
        -- apply Nat.eqb_eq in Hn. now rewrite Hn.
        -- apply Nat.eqb_neq in Hn. rewrite Nat.max_r by lia. lia.
Qed.

Lemma sources_rendered_for_assistant_witness :
  exists sources,
    extractSourcesFromMessage twoOutputs = Normal sources
    /\ Forall (fun b => b = sources)
         [[mkSource (JStr (lit "https://a.example")) (JStr (lit "First"));
           mkSource (JStr (lit "https://b.example")) (JStr (lit "https://b.example"))]]
    /\ (role twoOutputs = user ->
          [[mkSource (JStr (lit "https://a.example")) (JStr (lit "First"));
            mkSource (JStr (lit "https://b.example")) (JStr (lit "https://b.example"))]]
          = [])
    /\ (sources = [] ->
          [[mkSource (JStr (lit "https://a.example")) (JStr (lit "First"));
            mkSource (JStr (lit "https://b.example")) (JStr (lit "https://b.example"))]]
          = [])
    /\ (role twoOutputs = assistant -> sources <> [] ->
          length
            [[mkSource (JStr (lit "https://a.example")) (JStr (lit "First"));
              mkSource (JStr (lit "https://b.example"))
                (JStr (lit "https://b.example"))]]
          = Nat.max 1 (length (filter isTextPart (parts twoOutputs)))).
Proof.
  apply (sources_rendered_for_assistant twoOutputs). reflexivity.
Defined.

(** ** Submitting a prompt *)

(** X13.  Submitting through the prompt input sends the typed text as it
    is, once, when the text is not empty, and then clears both input
    states; an empty or missing text sends nothing and changes no state;
    a click on a suggestion sends that suggestion once. *)
Theorem submit_sends_text_once :
  (forall text,
     text <> [] ->
     PromptInput.handleSubmit PromptInput.Chat_handleSubmit (Some text)
     = [PromptInput.SendMessage text; PromptInput.SetInput [];
        PromptInput.SetText []])
  /\ PromptInput.handleSubmit PromptInput.Chat_handleSubmit (Some []) = []
  /\ PromptInput.handleSubmit PromptInput.Chat_handleSubmit None = []
  /\ (forall s, In s PromptInput.suggestions ->
        PromptInput.sent
          (PromptInput.handleSuggestionClick PromptInput.Chat_handleSubmit s) = [s]).
Proof.
  split; [|split; [reflexivity|split; [reflexivity|]]].
  - intros [|c s] H; [congruence|reflexivity].
  - intros s Hs. unfold PromptInput.suggestions in Hs. simpl in Hs.
    repeat (destruct Hs as [Hs|Hs]; [subst s; reflexivity|]). contradiction.
Qed.

Lemma submit_sends_text_once_witness :
  PromptInput.handleSubmit PromptInput.Chat_handleSubmit (Some (lit " "))
  = [PromptInput.SendMessage (lit " "); PromptInput.SetInput [];
     PromptInput.SetText []].
Proof.
  apply (proj1 submit_sends_text_once (lit " ")). discriminate.
Defined.

(** ** The POST handler: which requests it answers itself *)



(** ** The agents: what a run can contain *)

Section RunFacts.
Variable llm : jsstring -> jsstring -> Prompt -> list StepResult ->
               option AbortSignal -> ModelOutcome.
Variable search : nat -> jsstring -> option AbortSignal -> ToolOutcome.


End RunFacts.

(** X15.  The fact-checker and the summarizer have no tools: whatever
    the model asks for, a run of either makes no search and starts no
    other agent; every event of the run is its own [generate] call or a
    model call of its own. *)
Theorem toolless_agents_stay_alone : forall llm p sig,
  Forall (fun e => eventAgent e = Some factCheckerAgent)
    (snd (generate llm factChecker p sig))
  /\ Forall (fun e => eventAgent e = Some summarizerAgent)
       (snd (generate llm summarizer p sig)).
Proof.
  intros llm p sig. split; now apply no_tools_Forall.
Qed.

(** X16.  Every search of a run of the random-tangents agent asks for 3
    results, and every search of a run of the orchestrator for 5 (its own
    searches) or 3 (those of the tangent agent it delegates to). *)
Theorem search_result_counts : forall llm search p sig,
  Forall (fun e => isSearchWith [3] e = true)
    (snd (generate llm (randomTangents search) p sig))
  /\ Forall (fun e => isSearchWith [5; 3] e = true)
       (snd (generate llm (createChatAgent llm search) p sig)).
Proof.
  intros llm search p sig. split.
  - now apply randomTangents_Forall.
  - rewrite generate_log. constructor; [reflexivity|].
    apply loop_Forall; [reflexivity|].
    intros k t Hin i. simpl in Hin.
    destruct Hin as [H|[H|[H|[H|[]]]]]; inversion H; subst.
    + now apply tavilySearch_Forall.
    + cbn [execute findRandomTangentsTool]. rewrite returnText_log.
      now apply randomTangents_Forall.
    + cbn [execute factCheckTool]. rewrite returnText_log.
      now apply no_tools_Forall.
    + cbn [execute summarizeTool]. rewrite returnText_log.
      now apply no_tools_Forall.
Qed.

(** X17.  The abort signal given to a run of the orchestrator is the
    signal of everything the run does: its model calls, its searches, the
    [generate] calls on the three sub-agents and all their model calls
    and searches. *)
Theorem orchestrator_signal_reaches_all : forall llm search p sig,
  Forall (fun e => eventSignal e = sig)
    (snd (generate llm (createChatAgent llm search) p sig)).
Proof.
  intros llm search p sig. rewrite generate_log. constructor; [reflexivity|].
  apply loop_Forall; [reflexivity|].
  intros k t Hin i. simpl in Hin.
  destruct Hin as [H|[H|[H|[H|[]]]]]; inversion H; subst.
  - now apply tavilySearch_Forall.
  - cbn [execute findRandomTangentsTool]. rewrite returnText_log.
    now apply randomTangents_Forall.
  - cbn [execute factCheckTool]. rewrite returnText_log.
    now apply no_tools_Forall.
  - cbn [execute summarizeTool]. rewrite returnText_log.
    now apply no_tools_Forall.
Qed.

(** ** Delegated work *)


Section Delegation.
Variable llm : jsstring -> jsstring -> Prompt -> list StepResult ->
               option AbortSignal -> ModelOutcome.
Variable search : nat -> jsstring -> option AbortSignal -> ToolOutcome.





End Delegation.


